(** * E-Faktur validation service: text normalizer, field extractor,
      reference fetcher, reconciler and orchestrator of [main.py].

    Python [str] values that carry document data are modelled as lists of
    Unicode code points ([text]); dictionary keys, status strings and other
    literals of the program are Rocq strings. *)

From Stdlib Require Import NArith Ascii String.
From stdpp Require Import base option list gmap strings pretty.

Local Open Scope N_scope.

(** ** Python strings *)

Abbreviation text := (list N).

Definition chr (a : ascii) : N := N_of_ascii a.

Definition str (s : string) : text := chr <$> list_ascii_of_string s.

Module Py.

(** [c] is in the ASCII range, [\x00-\x7F]. *)
Definition is_ascii (c : N) : bool := c <? 128.

Definition is_digit (c : N) : bool := (48 <=? c) && (c <=? 57).
Definition is_upper (c : N) : bool := (65 <=? c) && (c <=? 90).
Definition is_lower (c : N) : bool := (97 <=? c) && (c <=? 122).

(** [str.isspace] and the class [\s] on ASCII subjects: TAB, LF, VT, FF,
    CR, the separators FS, GS, RS, US and the space. *)
Definition is_space (c : N) : bool :=
  ((9 <=? c) && (c <=? 13)) || ((28 <=? c) && (c <=? 32)).

Definition lower_chr (c : N) : N := if is_upper c then c + 32 else c.
Definition upper_chr (c : N) : N := if is_lower c then c - 32 else c.

(** [s.lower()] and [s.upper()]. Only the ASCII letters are mapped: the
    program calls [lower] to test a filename against suffixes made of
    ['.'] and the letters d e f g j n p, which no character outside ASCII
    lowercases to, and [upper] on a run of ASCII letters. *)
Definition lower (s : text) : text := lower_chr <$> s.
Definition upper (s : text) : text := upper_chr <$> s.

(** [s.startswith(p)] *)
Fixpoint startswith (s p : text) {struct p} : bool :=
  match p, s with
  | [], _ => true
  | _ :: _, [] => false
  | a :: p', c :: s' => (a =? c) && startswith s' p'
  end.

(** [s.endswith(p)] *)
Definition endswith (s p : text) : bool := startswith (reverse s) (reverse p).

(** [s[a:b]] and [s[a:]] for non-negative indices; an inverted range is
    empty. *)
Definition slice (s : text) (a b : nat) : text := take (b - a) (drop a s).
Definition slice_from (s : text) (a : nat) : text := drop a s.

(** [s.strip()] *)
Fixpoint lstrip (s : text) : text :=
  match s with
  | c :: s' => if is_space c then lstrip s' else s
  | [] => []
  end.
Definition rstrip (s : text) : text := reverse (lstrip (reverse s)).
Definition strip (s : text) : text := rstrip (lstrip s).

(** [s.zfill(w)]: the zeros go after a leading sign. *)
Definition zfill (w : nat) (s : text) : text :=
  let pad := replicate (w - length s)%nat (chr "0") in
  match s with
  | c :: s' => if (c =? chr "+") || (c =? chr "-") then c :: pad ++ s' else pad ++ s
  | [] => pad
  end.

(** [s.replace(old, new)]: the occurrences of [old] are replaced from left
    to right without overlap. [skip] counts the characters of the current
    occurrence that are still to be passed over. *)
Fixpoint replace_go (old new : text) (skip : nat) (s : text) : text :=
  match s with
  | [] => []
  | c :: s' =>
      match skip with
      | S k => replace_go old new k s'
      | O => if startswith s old
             then new ++ replace_go old new (pred (length old)) s'
             else c :: replace_go old new O s'
      end
  end.

Definition replace (old new s : text) : text :=
  match old with
  | [] => new ++ flat_map (λ c, c :: new) s
  | _ :: _ => replace_go old new O s
  end.

(** Truth value of an optional string: [None] and [''] are false. *)
Definition truthy (v : option text) : bool :=
  match v with
  | Some (_ :: _) => true
  | _ => false
  end.

End Py.

(** ** Regular-expression substitutions on character classes *)

Module Re.

(** [re.sub(r'[cls]+', rep, s)]: every maximal run of characters of the
    class is replaced by one copy of [rep]. [inrun] tells that the
    previous character belonged to the run being replaced. *)
Fixpoint sub_runs_go (cls : N → bool) (rep : text) (inrun : bool) (s : text) : text :=
  match s with
  | [] => []
  | c :: s' =>
      if cls c
      then (if inrun then [] else rep) ++ sub_runs_go cls rep true s'
      else c :: sub_runs_go cls rep false s'
  end.

Definition sub_runs (cls : N → bool) (rep s : text) : text :=
  sub_runs_go cls rep false s.

(** [re.sub(r'[cls]', rep, s)]: every character of the class is replaced. *)
Definition sub_chars (cls : N → bool) (rep s : text) : text :=
  flat_map (λ c, if cls c then rep else [c]) s.

End Re.

(** ** Text normalizer *)

Definition is_crlf (c : N) : bool := (c =? 13) || (c =? 10).
Definition is_blank (c : N) : bool := (c =? 32) || (c =? 9).
Definition is_non_ascii (c : N) : bool := negb (Py.is_ascii c).
Definition is_sp (c : N) : bool := c =? 32.

Definition preprocess_ocr_text (text0 : text) : text :=
  (* Normalize whitespace *)
  let text := Re.sub_runs is_crlf (str "
") text0 in
  let text := Re.sub_runs is_blank (str " ") text in
  (* Fix common OCR errors *)
  let text := Py.replace (str "Sen Faktur") (str "Seri Faktur") text in
  let text := Py.replace (str "NPWP |") (str "NPWP :") text in
  let text := Py.replace (str "NPWP |") (str "NPWP :") text in
  let text := Py.replace (str "NPWP :") (str "NPWP:") text in
  let text := Py.replace (str "NIKPaspor") (str "NIK/Paspor") text in
  let text := Py.replace (str "Palak") (str "Pajak") text in
  (* Remove non-ASCII chars *)
  let text := Re.sub_runs is_non_ascii [] text in
  (* Remove double spaces *)
  let text := Re.sub_runs is_sp (str " ") text in
  text.

(** ** Backtracking regular-expression matcher

    The patterns of the field extractor are built from literal characters,
    character classes, greedy bounded or unbounded repetition of a class,
    sequence, ordered alternation and capturing groups. The matcher explores
    them in the priority order of Python's [re]: the first alternative
    before the second, the longest repetition before the shorter ones, the
    leftmost start position first.

    Every pattern is run on the output of [preprocess_ocr_text], which is
    pure ASCII; [\s], [\d] and [re.IGNORECASE] are given by their ASCII
    tables. *)

Inductive regex : Type :=
  | Eps
  | Chr (cls : N → bool)
  | Rep (cls : N → bool) (lo : nat) (hi : option nat)
  | Cat (a b : regex)
  | Alt (a b : regex)
  | Grp (i : nat) (a : regex).

(** A match object: [m.start()], [m.end()] and the captured groups. *)
Record Match : Type := mkMatch {
  m_start : nat;
  m_end : nat;
  m_groups : gmap nat text
}.

(** [m.group(i)] of a group that took part in the match. *)
Definition group (m : Match) (i : nat) : text := default [] (m_groups m !! i).

Section matcher.
Context {R : Type}.

(** Greedy repetition of a class, [n] characters taken so far. *)
Fixpoint rep_match (cls : N → bool) (lo : nat) (hi : option nat)
    (k : text → option R) (n : nat) (s : text) : option R :=
  let stop := if (lo <=? n)%nat then k s else None in
  match s with
  | c :: s' =>
      if cls c && from_option (λ h, n <? h)%nat true hi
      then match rep_match cls lo hi k (S n) s' with
           | Some r => Some r
           | None => stop
           end
      else stop
  | [] => stop
  end.

(** [rmatch r s caps k]: match [r] at the head of [s], then continue with
    [k] on the rest of the subject; [None] makes the matcher backtrack. *)
Fixpoint rmatch (r : regex) (s : text) (caps : gmap nat text)
    (k : text → gmap nat text → option R) : option R :=
  match r with
  | Eps => k s caps
  | Chr cls =>
      match s with
      | c :: s' => if cls c then k s' caps else None
      | [] => None
      end
  | Rep cls lo hi => rep_match cls lo hi (λ s', k s' caps) O s
  | Cat a b => rmatch a s caps (λ s' caps', rmatch b s' caps' k)
  | Alt a b =>
      match rmatch a s caps k with
      | Some x => Some x
      | None => rmatch b s caps k
      end
  | Grp i a =>
      rmatch a s caps
        (λ s' caps', k s' (<[i := take (length s - length s') s]> caps'))
  end.
End matcher.

(** A match anchored at position [pos], where [s] is the subject from
    [pos] on. *)
Definition match_here (r : regex) (pos : nat) (s : text) : option Match :=
  rmatch r s ∅ (λ s' caps, Some (mkMatch pos (pos + (length s - length s')) caps)).

(** [re.search(r, s)]: the match at the leftmost position that has one. *)
Fixpoint search_at (r : regex) (pos : nat) (s : text) : option Match :=
  match match_here r pos s with
  | Some m => Some m
  | None =>
      match s with
      | [] => None
      | _ :: s' => search_at r (S pos) s'
      end
  end.

Definition re_search (r : regex) (s : text) : option Match := search_at r O s.

(** [list(re.finditer(r, s))]: the successive non-overlapping matches.
    [skip] counts the characters of the last match still to be passed; after
    an empty match the scan resumes one character further. *)
Fixpoint finditer_at (r : regex) (pos skip : nat) (s : text) : list Match :=
  match skip with
  | S k =>
      match s with
      | [] => []
      | _ :: s' => finditer_at r (S pos) k s'
      end
  | O =>
      match match_here r pos s with
      | Some m =>
          m :: match s with
               | [] => []
               | _ :: s' => finditer_at r (S pos) (pred (m_end m - pos)) s'
               end
      | None =>
          match s with
          | [] => []
          | _ :: s' => finditer_at r (S pos) O s'
          end
      end
  end.

Definition re_finditer (r : regex) (s : text) : list Match := finditer_at r O O s.

(** *** Pattern syntax *)

Definition seq (rs : list regex) : regex := foldr Cat Eps rs.

(** A literal character, case-insensitive when [ic] is set. *)
Definition lit_chr (ic : bool) (a : N) : regex :=
  Chr (λ c, if ic then Py.lower_chr c =? Py.lower_chr a else c =? a).

Definition lit (ic : bool) (s : string) : regex := seq (lit_chr ic <$> str s).

Definition one_of (s : string) (c : N) : bool := bool_decide (c ∈ str s).

(** [[\s:|\-]] *)
Definition cls_sep (c : N) : bool := Py.is_space c || one_of ":|-" c.
(** [[0-9.\-]] *)
Definition cls_npwp (c : N) : bool := Py.is_digit c || one_of ".-" c.
(** [[A-Z0-9 .,&-]] *)
Definition cls_nama (c : N) : bool := Py.is_upper c || Py.is_digit c || one_of " .,&-" c.
(** [[0-9.,]] *)
Definition cls_amount (c : N) : bool := Py.is_digit c || one_of ".," c.
(** [[A-Z]] under [re.IGNORECASE] *)
Definition cls_alpha_ic (c : N) : bool := Py.is_upper c || Py.is_lower c.
(** [[\s.,]] *)
Definition cls_space_dot_comma (c : N) : bool := Py.is_space c || one_of ".," c.

Definition star (cls : N → bool) : regex := Rep cls 0 None.
Definition plus (cls : N → bool) : regex := Rep cls 1 None.
Definition times (cls : N → bool) (lo hi : nat) : regex := Rep cls lo (Some hi).

(** ** Field extractor *)

Local Open Scope string_scope.
Local Open Scope list_scope.
Local Open Scope N_scope.

Abbreviation Dict := (gmap string (option text)).

(** [d.get(k)]: [None] for a missing key as for a key bound to [None]. *)
Definition dict_get (d : Dict) (k : string) : option text := mjoin (d !! k).

(** Truth value of a string or of a list: empty is false. *)
Definition nonempty {A} (s : list A) : bool :=
  match s with
  | [] => false
  | _ :: _ => true
  end.

Definition is_non_digit (c : N) : bool := negb (Py.is_digit c).

(** [r'Pengusaha Kena Pajak'] and [r'Pembeli Barang Kena Pajak'], both
    searched with [re.IGNORECASE]. *)
Definition RE_PENJUAL : regex := lit true "Pengusaha Kena Pajak".
Definition RE_PEMBELI : regex := lit true "Pembeli Barang Kena Pajak".

(** [r'NPWP[\s:|\-]*([0-9.\-]+)'] *)
Definition RE_NPWP : regex :=
  seq [lit false "NPWP"; star cls_sep; Grp 1 (plus cls_npwp)].

(** [r'Nama[\s:|\-]*([A-Z0-9 .,&-]+)'] *)
Definition RE_NAMA : regex :=
  seq [lit false "Nama"; star cls_sep; Grp 1 (plus cls_nama)].

(** [r'(?:Kode dan Nomor Seri Faktur Pajak|Nomor[\s:|\-]*Faktur)[\s:|\-]*([0-9.\-]+[ ]*[0-9]+)'] *)
Definition RE_NOMOR_FAKTUR : regex :=
  seq [Alt (lit true "Kode dan Nomor Seri Faktur Pajak")
           (seq [lit true "Nomor"; star cls_sep; lit true "Faktur"]);
       star cls_sep;
       Grp 1 (seq [plus cls_npwp; star is_sp; plus Py.is_digit])].

(** The pattern of [tanggalFaktur]: the non-capturing alternation of
    [Tanggal[\s:|\-]*Faktur] and of a comma followed by [\s*], and right
    after it the group [(\d{1,2}/\d{1,2}/\d{4})]. *)
Definition RE_TANGGAL_FAKTUR : regex :=
  seq [Alt (seq [lit true "Tanggal"; star cls_sep; lit true "Faktur"])
           (seq [lit true ","; star Py.is_space]);
       Grp 1 (seq [times Py.is_digit 1 2; lit true "/";
                   times Py.is_digit 1 2; lit true "/";
                   times Py.is_digit 4 4])].

(** [r'Dasar Pengenaan Pajak[\s:|\-]*([0-9.,]+)'] *)
Definition RE_JUMLAH_DPP : regex :=
  seq [lit true "Dasar Pengenaan Pajak"; star cls_sep; Grp 1 (plus cls_amount)].

(** [r'Total PPN[\s:|\-]*([0-9.,]+)'] *)
Definition RE_JUMLAH_PPN : regex :=
  seq [lit true "Total PPN"; star cls_sep; Grp 1 (plus cls_amount)].

(** [r',\s*(\d{1,2})\s+([A-Z]+)\s+(\d{4})'], searched with [re.IGNORECASE] *)
Definition RE_TANGGAL_FALLBACK : regex :=
  seq [lit true ","; star Py.is_space; Grp 1 (times Py.is_digit 1 2);
       plus Py.is_space; Grp 2 (plus cls_alpha_ic);
       plus Py.is_space; Grp 3 (times Py.is_digit 4 4)].

Definition patterns : list (string * regex) :=
  [("nomorFaktur", RE_NOMOR_FAKTUR);
   ("tanggalFaktur", RE_TANGGAL_FAKTUR);
   ("jumlahDpp", RE_JUMLAH_DPP);
   ("jumlahPpn", RE_JUMLAH_PPN)].

Definition indo_months : gmap text text :=
  list_to_map
    [(str "JANUARI", str "01"); (str "FEBRUARI", str "02"); (str "MARET", str "03");
     (str "APRIL", str "04"); (str "MEI", str "05"); (str "JUNI", str "06");
     (str "JULI", str "07"); (str "AGUSTUS", str "08"); (str "SEPTEMBER", str "09");
     (str "OKTOBER", str "10"); (str "NOVEMBER", str "11"); (str "DESEMBER", str "12")].

(** Section splitting: [(penjual_section, pembeli_section)]. *)
Definition sections (txt : text) : text * text :=
  let penjual_start := re_search RE_PENJUAL txt in
  let pembeli_start := re_search RE_PEMBELI txt in
  match penjual_start, pembeli_start with
  | Some ps, Some bs =>
      (Py.slice txt (m_start ps) (m_start bs), Py.slice_from txt (m_start bs))
  | Some ps, None => (Py.slice_from txt (m_start ps), [])
  | None, Some bs => ([], Py.slice_from txt (m_start bs))
  | None, None => ([], [])
  end.

Definition penjual_section (txt : text) : text := fst (sections txt).
Definition pembeli_section (txt : text) : text := snd (sections txt).

Definition extract_npwp (section : text) : option text :=
  match re_search RE_NPWP section with
  | Some m => Some (Re.sub_chars is_non_digit [] (group m 1))
  | None => None
  end.

Definition extract_nama (section : text) : option text :=
  match re_search RE_NAMA section with
  | Some m => Some (Py.strip (group m 1))
  | None => None
  end.

(** [extract(section) if section else None] *)
Definition extract_in (extract : text → option text) (section : text) : option text :=
  if nonempty section then extract section else None.

(** The four party fields, as functions of the normalized text. *)
Definition npwp_penjual (txt : text) : option text :=
  let npwp_penjual := extract_in extract_npwp (penjual_section txt) in
  if negb (Py.truthy npwp_penjual) then extract_npwp txt else npwp_penjual.

Definition nama_penjual (txt : text) : option text :=
  let nama_penjual := extract_in extract_nama (penjual_section txt) in
  if negb (Py.truthy nama_penjual) then extract_nama txt else nama_penjual.

Definition npwp_pembeli (txt : text) : option text :=
  let npwp_pembeli := extract_in extract_npwp (pembeli_section txt) in
  if negb (Py.truthy npwp_pembeli)
  then
    (* Try to extract the second NPWP in the text (after penjual's NPWP) *)
    let all_npwp := re_finditer RE_NPWP txt in
    if bool_decide (1 < length all_npwp)%nat
    then (λ m, Re.sub_chars is_non_digit [] (group m 1)) <$> all_npwp !! 1%nat
    else None
  else npwp_pembeli.

Definition nama_pembeli (txt : text) : option text :=
  let nama_pembeli := extract_in extract_nama (pembeli_section txt) in
  if negb (Py.truthy nama_pembeli)
  then
    (* Try to extract the second Nama in the text (after penjual's Nama) *)
    let all_nama := re_finditer RE_NAMA txt in
    if bool_decide (1 < length all_nama)%nat
    then (λ m, Py.strip (group m 1)) <$> all_nama !! 1%nat
    else None
  else nama_pembeli.

(** The fallback for [tanggalFaktur]: ['PLACE, DD MONTH YYYY']. *)
Definition tanggal_fallback (txt : text) : option text :=
  match re_search RE_TANGGAL_FALLBACK txt with
  | Some match3 =>
      let day := group match3 1 in
      let month_str := Py.upper (group match3 2) in
      let year := group match3 3 in
      match indo_months !! month_str with
      | Some month =>
          if nonempty month
          then Some (Py.zfill 2 day ++ str "/" ++ month ++ str "/" ++ year)
          else None
      | None => None
      end
  | None => None
  end.

(** One turn of the loop over [patterns.items()]. *)
Definition scalar_step (txt : text) (fields : Dict) (fp : string * regex) : Dict :=
  let '(field, pattern) := fp in
  match re_search pattern txt with
  | Some m =>
      let value := Py.strip (group m 1) in
      let value :=
        if bool_decide (field = "nomorFaktur")
        then Re.sub_chars is_non_digit [] value else value in
      let value :=
        if bool_decide (field ∈ ["jumlahDpp"; "jumlahPpn"])
        then Re.sub_chars cls_space_dot_comma [] value else value in
      <[field := Some value]> fields
  | None =>
      match
        (if bool_decide (field = "tanggalFaktur") then tanggal_fallback txt else None)
      with
      | Some value => <[field := Some value]> fields
      | None => <[field := dict_get fields field]> fields
      end
  end.

Definition parse_pdf_fields (text0 : text) : Dict :=
  (* Preprocess text for better matching *)
  let txt := preprocess_ocr_text text0 in
  let fields : Dict := ∅ in
  let fields := <["npwpPenjual" := npwp_penjual txt]> fields in
  let fields := <["namaPenjual" := nama_penjual txt]> fields in
  let fields := <["npwpPembeli" := npwp_pembeli txt]> fields in
  let fields := <["namaPembeli" := nama_pembeli txt]> fields in
  foldl (scalar_step txt) fields patterns.

(** ** File kinds *)

Definition is_image_file (filename : text) : bool :=
  existsb (Py.endswith (Py.lower filename)) [str ".jpg"; str ".jpeg"; str ".png"].

Definition is_pdf_file (filename : text) : bool :=
  Py.endswith (Py.lower filename) (str ".pdf").

(** ** Reference fetcher *)

Definition MOCK_DJP_XML : text := str "<resValidateFakturPm>
<kdJenisTransaksi>07</kdJenisTransaksi>
<fgPengganti>0</fgPengganti>
<nomorFaktur>0700002212345678</nomorFaktur>
<tanggalFaktur>01/04/2022</tanggalFaktur>
<npwpPenjual>012345678012000</npwpPenjual>
<namaPenjual>PT ABC</namaPenjual>
<alamatPenjual>Jalan Gatot Subroto No. 40A, Senayan, Kebayoran Baru, Jakarta Selatan 12910</alamatPenjual>
<npwpLawanTransaksi>023456789217000</npwpLawanTransaksi>
<namaLawanTransaksi>PT XYZ</namaLawanTransaksi>
<alamatLawanTransaksi>Jalan Kuda Laut No. 1, Sungai Jodoh, Batu Ampar, Batam 29444</alamatLawanTransaksi>
<jumlahDpp>15000000</jumlahDpp>
<jumlahPpn>1650000</jumlahPpn>
<jumlahPpnBm>0</jumlahPpnBm>
<statusApproval>Faktur Valid, Sudah Diapprove oleh DJP</statusApproval>
<statusFaktur>Faktur Pajak Normal</statusFaktur>
<referensi>123/ABC/IV/2022</referensi>
<detailTransaksi>
<nama>KOMPUTER MERK ABC, HS Code 84714110</nama>
<hargaSatuan>5000000</hargaSatuan>
<jumlahBarang>3</jumlahBarang>
<hargaTotal>15000000</hargaTotal>
<diskon>0</diskon>
<dpp>15000000</dpp>
<ppn>1650000</ppn>
<tarifPpnbm>0</tarifPpnbm>
<ppnbm>0</ppnbm>
</detailTransaksi>
</resValidateFakturPm>".

(** [xml.etree.ElementTree] on the documents the service parses: elements
    written as a start tag and an end tag without attributes, and character
    data without entity references. A document that is not well formed, or
    that leaves this fragment, is a parse error of the model. *)
Module ET.

#[local] Unset Elimination Schemes.
Inductive Element : Type :=
  mkElement (tag : text) (text_ : option text) (children : list Element).
#[local] Set Elimination Schemes.

Definition tag (e : Element) : text := let 'mkElement t _ _ := e in t.
(** [element.text]: the character data before the first child, [None]
    when there is none. *)
Definition text_ (e : Element) : option text := let 'mkElement _ t _ := e in t.
Definition children (e : Element) : list Element := let 'mkElement _ _ c := e in c.

(** An element whose end tag has not been read yet. *)
Record frame : Type := mkFrame {
  f_tag : text;
  f_text : text;
  f_children : list Element
}.

Inductive mode : Type :=
  | InText
  | InTag (closing : bool) (name : text).

Record pstate : Type := mkState {
  p_stack : list frame;
  p_mode : mode;
  p_root : option Element
}.

Definition is_name_chr (c : N) : bool :=
  Py.is_upper c || Py.is_lower c || Py.is_digit c || (c =? chr "_").

Definition close_frame (f : frame) : Element :=
  mkElement (f_tag f) (if nonempty (f_text f) then Some (f_text f) else None)
    (f_children f).

Definition step (st : pstate) (c : N) : option pstate :=
  match p_mode st with
  | InText =>
      if c =? chr "<" then Some (mkState (p_stack st) (InTag false []) (p_root st))
      else if c =? chr "&" then None
      else
        match p_stack st with
        | [] => if Py.is_space c then Some st else None
        | f :: rest =>
            match f_children f with
            | [] =>
                Some (mkState (mkFrame (f_tag f) (f_text f ++ [c]) [] :: rest)
                        InText (p_root st))
            | _ :: _ => Some st
            end
        end
  | InTag closing name =>
      if c =? chr "/" then
        if negb closing && negb (nonempty name)
        then Some (mkState (p_stack st) (InTag true []) (p_root st))
        else None
      else if c =? chr ">" then
        if negb (nonempty name) then None
        else if closing then
          match p_stack st with
          | f :: rest =>
              if bool_decide (f_tag f = name) then
                match rest with
                | [] =>
                    match p_root st with
                    | None => Some (mkState [] InText (Some (close_frame f)))
                    | Some _ => None
                    end
                | p :: rest' =>
                    Some (mkState
                            (mkFrame (f_tag p) (f_text p) (f_children p ++ [close_frame f])
                               :: rest')
                            InText (p_root st))
                end
              else None
          | [] => None
          end
        else
          match p_stack st, p_root st with
          | [], Some _ => None
          | stack, root => Some (mkState (mkFrame name [] [] :: stack) InText root)
          end
      else if is_name_chr c then Some (mkState (p_stack st) (InTag closing (name ++ [c])) (p_root st))
      else None
  end.

(** [ET.fromstring(s)]; [None] stands for [ET.ParseError]. *)
Definition fromstring (s : text) : option Element :=
  match foldl (λ st c, st ≫= λ st, step st c) (Some (mkState [] InText None)) s with
  | Some (mkState [] InText (Some root)) => Some root
  | _ => None
  end.

(** [element.find(name)] for a plain tag name: the first child with the tag. *)
Definition find (e : Element) (name : text) : option Element :=
  snd <$> list_find (λ ch, tag ch = name) (children e).

End ET.

Record HTTPException : Type := mkHTTPException {
  status_code : nat;
  detail : string
}.

Definition field_mapping : list (string * string) :=
  [("npwpPenjual", "npwpPenjual");
   ("namaPenjual", "namaPenjual");
   ("npwpPembeli", "npwpLawanTransaksi");
   ("namaPembeli", "namaLawanTransaksi");
   ("nomorFaktur", "nomorFaktur");
   ("tanggalFaktur", "tanggalFaktur");
   ("jumlahDpp", "jumlahDpp");
   ("jumlahPpn", "jumlahPpn")].

Definition fetch_djp_data (qr_url : option text) : HTTPException + Dict :=
  match ET.fromstring MOCK_DJP_XML with
  | Some root =>
      inr (foldl (λ (djp_data : Dict) '(pdf_field, xml_field),
                    match ET.find root (str xml_field) with
                    | Some element => <[pdf_field := ET.text_ element]> djp_data
                    | None => <[pdf_field := None]> djp_data
                    end) ∅ field_mapping)
  | None => inl (mkHTTPException 500 "Failed to parse DJP response")
  end.

(** [fetch_djp_data] of a validator whose [mock_djp_xml] attribute holds the
    document [mock_djp_xml]. *)
Definition fetch_djp_data_of (mock_djp_xml : text) (qr_url : option text)
    : HTTPException + Dict :=
  match ET.fromstring mock_djp_xml with
  | Some root =>
      inr (foldl (λ (djp_data : Dict) '(pdf_field, xml_field),
                    match ET.find root (str xml_field) with
                    | Some element => <[pdf_field := ET.text_ element]> djp_data
                    | None => <[pdf_field := None]> djp_data
                    end) ∅ field_mapping)
  | None => inl (mkHTTPException 500 "Failed to parse DJP response")
  end.

(** ** Reconciler *)

Record Deviation : Type := mkDeviation {
  field : string;
  pdf_value : option text;
  djp_api_value : option text;
  deviation_type : string
}.

Definition FIELDS : list string :=
  ["npwpPenjual"; "namaPenjual"; "npwpPembeli"; "namaPembeli";
   "nomorFaktur"; "tanggalFaktur"; "jumlahDpp"; "jumlahPpn"].

(** One turn of the loop of [compare_fields]. *)
Definition compare_step (pdf_data djp_data : Dict)
    (deviations : list Deviation) (field : string) : list Deviation :=
  let pdf_value := dict_get pdf_data field in
  let djp_value := dict_get djp_data field in
  let append deviation_type :=
    deviations ++ [mkDeviation field pdf_value djp_value deviation_type] in
  if bool_decide (pdf_value = None) && bool_decide (djp_value ≠ None)
  then append "missing_in_pdf"
  else if bool_decide (pdf_value ≠ None) && bool_decide (djp_value = None)
  then append "missing_in_api"
  else if bool_decide (pdf_value ≠ djp_value)
  then append "mismatch"
  else deviations.

Definition compare_fields (pdf_data djp_data : Dict) : list Deviation :=
  foldl (compare_step pdf_data djp_data) [] FIELDS.

(** ** Validation orchestrator *)

Record ValidationResults : Type := mkValidationResults {
  deviations : list Deviation;
  validated_data : Dict;
  extracted_data : Dict;
  raw_ocr_text : text;
  qr_url : option text
}.

Record ValidationResult : Type := mkValidationResult {
  status : string;
  message : string;
  validation_results : ValidationResults
}.

(** The methods of the validator that a request runs, in call order. *)
Inductive Call : Type :=
  | ExtractTextFromPdf
  | ExtractTextFromImage
  | ParsePdfFields
  | ExtractQrCodeFromPdf
  | ExtractQrCodeFromImage
  | FetchDjpData
  | CompareFields.

(** A computation logs its calls and either raises an [HTTPException] or
    returns. *)
Definition M (A : Type) : Type := list Call → list Call * (HTTPException + A).

Definition ret {A} (a : A) : M A := λ log, (log, inr a).

Definition raise {A} (e : HTTPException) : M A := λ log, (log, inl e).

Definition bind {A B} (m : M A) (k : A → M B) : M B :=
  λ log,
    match m log with
    | (log', inr a) => k a log'
    | (log', inl e) => (log', inl e)
    end.

(** Call the method [c], whose outcome is [r]. *)
Definition call {A} (c : Call) (r : HTTPException + A) : M A :=
  λ log, (log ++ [c], r).

Notation "'let*' x ':=' m 'in' k" := (bind m (λ x, k))
  (at level 10, x pattern, m at level 100, k at level 200).

Definition run {A} (m : M A) : list Call * (HTTPException + A) := m [].

Section orchestrator.

(** The text-recognition and QR collaborators. [pdf_plumber] and
    [tesseract] give the text of a file, or [None] when the library raises;
    the two QR extractors return an optional URL and never raise. *)
Variable pdf_plumber : list Byte.byte → option text.
Variable tesseract : list Byte.byte → option text.
Variable extract_qr_code_from_pdf : list Byte.byte → option text.
Variable extract_qr_code_from_image : list Byte.byte → option text.

Definition extract_text_from_pdf (pdf_content : list Byte.byte) : HTTPException + text :=
  match pdf_plumber pdf_content with
  | Some text => inr text
  | None => inl (mkHTTPException 400 "Failed to extract text from PDF")
  end.

Definition extract_text_from_image (image_content : list Byte.byte) : HTTPException + text :=
  match tesseract image_content with
  | Some text => inr text
  | None => inl (mkHTTPException 400 "Failed to extract text from image")
  end.

(** [validate_efaktur] of the validator. An [HTTPException] raised inside
    is raised again unchanged; no other exception arises from the steps
    modelled here. *)
Definition validate_efaktur (file_content : list Byte.byte) (filename : text)
    : M ValidationResult :=
  let* (pdf_data, qr_url, extracted_text) :=
    (if is_pdf_file filename then
       let* pdf_text := call ExtractTextFromPdf (extract_text_from_pdf file_content) in
       if negb (nonempty pdf_text)
       then raise (mkHTTPException 400 "No text found in PDF")
       else
         let* pdf_data := call ParsePdfFields (inr (parse_pdf_fields pdf_text)) in
         let* qr_url := call ExtractQrCodeFromPdf (inr (extract_qr_code_from_pdf file_content)) in
         ret (pdf_data, qr_url, pdf_text)
     else if is_image_file filename then
       let* image_text := call ExtractTextFromImage (extract_text_from_image file_content) in
       if negb (nonempty image_text)
       then raise (mkHTTPException 400 "No text found in image")
       else
         let* pdf_data := call ParsePdfFields (inr (parse_pdf_fields image_text)) in
         let* qr_url := call ExtractQrCodeFromImage (inr (extract_qr_code_from_image file_content)) in
         ret (pdf_data, qr_url, image_text)
     else raise (mkHTTPException 400 "Only PDF and JPG/PNG files are supported"))
  in
  let* djp_data := call FetchDjpData (fetch_djp_data qr_url) in
  let* deviations := call CompareFields (inr (compare_fields pdf_data djp_data)) in
  let '(status, message) :=
    if nonempty deviations
    then ("validated_with_deviations",
          "Found " +:+ pretty (length deviations) +:+ " deviation(s) in e-Faktur data")
    else ("validated_successfully", "E-Faktur data matches DJP records") in
  ret (mkValidationResult status message
         (mkValidationResults deviations djp_data pdf_data extracted_text qr_url)).

(** The outcome of the text-extraction step for a file: [None] when the
    file kind is not supported or the collaborator fails. *)
Definition extracted_text (content : list Byte.byte) (filename : text) : option text :=
  if is_pdf_file filename then pdf_plumber content
  else if is_image_file filename then tesseract content
  else None.

End orchestrator.

(** The HTTP layer. *)
Module App.

(** [POST /validate-efaktur]. [upload] is the outcome of [file.read()],
    [None] when it raises. *)
Definition validate_efaktur
    (pdf_plumber tesseract : list Byte.byte → option text)
    (extract_qr_code_from_pdf extract_qr_code_from_image : list Byte.byte → option text)
    (upload : option (list Byte.byte)) (filename : text) : M ValidationResult :=
  if negb (is_pdf_file filename || is_image_file filename)
  then raise (mkHTTPException 400 "Only PDF and JPG/PNG files are supported")
  else
    match upload with
    | Some file_content =>
        validate_efaktur pdf_plumber tesseract
          extract_qr_code_from_pdf extract_qr_code_from_image file_content filename
    | None => raise (mkHTTPException 500 "Failed to process uploaded file")
    end.

(** [GET /] *)
Definition root : string := "E-Faktur Validation Service is running".

End App.

(** * Vocabulary of the properties *)

(** ** Matcher *)

(** The least number of characters that a match of [r] takes. *)
Fixpoint min_len (r : regex) : nat :=
  match r with
  | Eps => 0
  | Chr _ => 1
  | Rep _ lo _ => lo
  | Cat a b => min_len a + min_len b
  | Alt a b => min_len a `min` min_len b
  | Grp _ a => min_len a
  end.

(** Every match of [r] goes through the group [i]. *)
Fixpoint sets_group (i : nat) (r : regex) : bool :=
  match r with
  | Grp j a => bool_decide (i = j) || sets_group i a
  | Cat a b => sets_group i a || sets_group i b
  | Alt a b => sets_group i a && sets_group i b
  | _ => false
  end.

(** The texts that [r] matches, groups aside. *)
Fixpoint lang (r : regex) (p : text) : Prop :=
  match r with
  | Eps => p = []
  | Chr cls => ∃ c, p = [c] ∧ cls c = true
  | Rep cls lo hi =>
      Forall (λ c, cls c = true) p
      ∧ (lo ≤ length p)%nat
      ∧ from_option (λ h, length p ≤ h)%nat True hi
  | Cat a b => ∃ p1 p2, p = p1 ++ p2 ∧ lang a p1 ∧ lang b p2
  | Alt a b => lang a p ∨ lang b p
  | Grp _ a => lang a p
  end.

(** The texts that the group [i] of [r] can capture. *)
Fixpoint grp_lang (i : nat) (r : regex) (v : text) : Prop :=
  match r with
  | Grp j a => (i = j ∧ lang a v) ∨ grp_lang i a v
  | Cat a b => grp_lang i a v ∨ grp_lang i b v
  | Alt a b => grp_lang i a v ∨ grp_lang i b v
  | _ => False
  end.

(** The bodies of the groups numbered [i] in [r]. *)
Fixpoint grp_bodies (i : nat) (r : regex) : list regex :=
  match r with
  | Grp j a => (if decide (i = j) then [a] else []) ++ grp_bodies i a
  | Cat a b => grp_bodies i a ++ grp_bodies i b
  | Alt a b => grp_bodies i a ++ grp_bodies i b
  | _ => []
  end.

(** ** Field extractor *)

(** A text of decimal digits. *)
Definition digits (v : text) : Prop := Forall (λ c, Py.is_digit c = true) v.

(** [d/m/y] with one or two digits for the day and for the month and four
    for the year. *)
Definition is_date (v : text) : Prop :=
  ∃ d m y, v = d ++ str "/" ++ m ++ str "/" ++ y
           ∧ digits d ∧ digits m ∧ digits y
           ∧ (1 ≤ length d ≤ 2)%nat ∧ (1 ≤ length m ≤ 2)%nat ∧ length y = 4%nat.

(** ** Reconciler *)

(** The rule of the reconciler for one field, as the specification words
    it: what is reported for an extracted value and a reference value. *)
Definition deviation_rule (pdf_data djp_data : Dict) (f : string) : option Deviation :=
  match dict_get pdf_data f, dict_get djp_data f with
  | None, None => None
  | None, Some r => Some (mkDeviation f None (Some r) "missing_in_pdf")
  | Some p, None => Some (mkDeviation f (Some p) None "missing_in_api")
  | Some p, Some r =>
      if decide (p = r) then None
      else Some (mkDeviation f (Some p) (Some r) "mismatch")
  end.

(** The outcome of [compare_fields] on swapped arguments, deviation by
    deviation: same field, the two values exchanged, [missing_in_pdf] and
    [missing_in_api] exchanged, [mismatch] kept. *)
Definition swapped (d d' : Deviation) : Prop :=
  field d' = field d
  ∧ pdf_value d' = djp_api_value d
  ∧ djp_api_value d' = pdf_value d
  ∧ (deviation_type d = "missing_in_pdf" → deviation_type d' = "missing_in_api")
  ∧ (deviation_type d = "missing_in_api" → deviation_type d' = "missing_in_pdf")
  ∧ (deviation_type d = "mismatch" → deviation_type d' = "mismatch").

(** ** Text normalizer *)

(** [X in s]: the text [X] occurs in [s]. *)
Fixpoint occurs (X s : text) : bool :=
  Py.startswith s X
  || match s with
     | [] => false
     | _ :: s' => occurs X s'
     end.

(** No non-empty suffix of [X] is a prefix of [B] or has [B] as a prefix. *)
Fixpoint no_clash_from (X B : text) : bool :=
  match X with
  | [] => true
  | _ :: X' =>
      negb (Py.startswith B X) && negb (Py.startswith X B) && no_clash_from X' B
  end.

(** No non-empty suffix of [B] is a prefix of [X] or has [X] as a prefix. *)
Fixpoint no_clash_into (X B : text) : bool :=
  match B with
  | [] => true
  | _ :: B' =>
      negb (Py.startswith B X) && negb (Py.startswith X B) && no_clash_into X B'
  end.

(** Writing [B] into a text cannot complete an occurrence of [X]. *)
Definition safe (X B : text) : bool := no_clash_from X B && no_clash_into X B.

(** The fragments that a normalized text is free of. *)
Definition fragments : list text :=
  [str "Palak"; str "NIKPaspor"; str "NPWP :"; str "NPWP |"; str "Sen Faktur";
   [9]; str "  "; [13]; [10; 10]].

Definition free_of (Xs : list text) (s : text) : Prop :=
  Forall (λ X, occurs X s = false) Xs.

Definition ascii_text (s : text) : Prop := Forall (λ c, Py.is_ascii c = true) s.

(** A fragment made of characters outside the class [cls], none of them [r]. *)
Definition outside (cls : N → bool) (r : N) (X : text) : Prop :=
  Forall (λ x, cls x = false ∧ x ≠ r) X.

(** ** Reference fetcher and orchestrator *)

(** The record that the mock document maps to. *)
Definition mock_record : Dict :=
  list_to_map
    [("npwpPenjual", Some (str "012345678012000"));
     ("namaPenjual", Some (str "PT ABC"));
     ("npwpPembeli", Some (str "023456789217000"));
     ("namaPembeli", Some (str "PT XYZ"));
     ("nomorFaktur", Some (str "0700002212345678"));
     ("tanggalFaktur", Some (str "01/04/2022"));
     ("jumlahDpp", Some (str "15000000"));
     ("jumlahPpn", Some (str "1650000"))].

(** The result assembled from the extracted fields and the reference
    record. *)
Definition assemble (pdf_data djp_data : Dict) (txt : text) (url : option text)
    : ValidationResult :=
  let deviations := compare_fields pdf_data djp_data in
  mkValidationResult
    (if nonempty deviations then "validated_with_deviations"
     else "validated_successfully")
    (if nonempty deviations
     then "Found " +:+ pretty (length deviations) +:+ " deviation(s) in e-Faktur data"
     else "E-Faktur data matches DJP records")
    (mkValidationResults deviations djp_data pdf_data txt url).

(** A result with its QR URL forgotten. *)
Definition without_qr (r : ValidationResult) : ValidationResult :=
  let res := validation_results r in
  mkValidationResult (status r) (message r)
    (mkValidationResults (deviations res) (validated_data res) (extracted_data res)
       (raw_ocr_text res) None).

(** ** Sample inputs *)

(** An accented letter inside a misread word. *)
Definition accented_palak : text := str "Pal" ++ [233] ++ str "ak".

(** Scenario A: a seller section with its two labels, no buyer marker, and
    a second pair of labels further down. *)
Definition scenario_a : text := str "Pengusaha Kena Pajak
NPWP: 012345678012000
Nama: PT ABC
NPWP: 02.345.678.9-217.000
Nama: PT XYZ".

(** A tax-ID and a name printed above the seller marker, none below it. *)
Definition early_labels : text :=
  str "NPWP: 01.234.567.8-012.000 Nama: PT ABC
Pengusaha Kena Pajak
Alamat: Jalan Gatot Subroto".

(** The same labels inside the seller section. *)
Definition seller_labels : text :=
  str "Pengusaha Kena Pajak
Nama: PT ABC
NPWP: 01.234.567.8-012.000".

(** An invoice text that agrees with the mock record on every field. *)
Definition matching_invoice : text := str "Pengusaha Kena Pajak
Nama: PT ABC
NPWP: 01.234.567.8-012.000
Pembeli Barang Kena Pajak
Nama: PT XYZ
NPWP: 02.345.678.9-217.000
Kode dan Nomor Seri Faktur Pajak: 070.000-22.12345678
Dasar Pengenaan Pajak 15.000.000
Total PPN 1.650.000
Jakarta, 01/04/2022".

(** Collaborators that read the same text from every file and find no QR
    code. *)
Definition reads (t : text) : list Byte.byte → option text := λ _, Some t.
Definition no_qr : list Byte.byte → option text := λ _, None.



(** * Properties *)

(** Membership in a list of literals, by evaluation. *)
Ltac elem_of_literals := apply (bool_decide_unpack _); by vm_compute.

(** ** Text normalizer *)

Lemma startswith_nil_r s : Py.startswith s [] = true.
Proof. by destruct s. Qed.

Lemma startswith_app_clash (B rest X : text) :
  Py.startswith (B ++ rest) X = true →
  Py.startswith B X = true ∨ Py.startswith X B = true.
Proof.
  revert B. induction X as [|x X IH]; intros B; simpl; [by left|].
  destruct B as [|b B]; simpl; [by right|].
  rewrite !andb_true_iff, N.eqb_eq. intros [-> H].
  destruct (IH _ H) as [H'|H']; [left|right]; rewrite ?N.eqb_refl; done.
Qed.

Section replace.

Variables A B : text.
Hypothesis A_nonempty : A ≠ [].

Lemma replace_go_skip k s :
  Py.replace_go A B k s = Py.replace_go A B 0 (drop k s).
Proof.
  revert k. induction s as [|c s IH]; intros k; [by destruct k|].
  destruct k as [|k]; [done|]. simpl. apply IH.
Qed.

Lemma replace_go_hit s :
  Py.startswith s A = true →
  Py.replace_go A B 0 s = B ++ Py.replace_go A B 0 (drop (length A) s).
Proof.
  intros H. destruct s as [|c s].
  - destruct A; [done | discriminate H].
  - simpl. rewrite H. rewrite replace_go_skip. f_equal.
    destruct A; [done|]. done.
Qed.

Lemma replace_go_miss c s :
  Py.startswith (c :: s) A = false →
  Py.replace_go A B 0 (c :: s) = c :: Py.replace_go A B 0 s.
Proof. intros H. simpl. by rewrite H. Qed.

Lemma replace_is_go s : Py.replace A B s = Py.replace_go A B 0 s.
Proof. unfold Py.replace. by destruct A. Qed.

(** A text free of [A] is left as it is. *)
Lemma replace_go_noop s : occurs A s = false → Py.replace_go A B 0 s = s.
Proof.
  induction s as [|c s IH]; [done|].
  simpl occurs. rewrite orb_false_iff. intros [Hhd Htl].
  rewrite replace_go_miss by done. by rewrite IH.
Qed.

Lemma replace_go_Forall (Q : N → Prop) s :
  Forall Q B → Forall Q s → Forall Q (Py.replace_go A B 0 s).
Proof.
  intros HB. remember (length s) as n eqn:Hn.
  revert s Hn. induction (lt_wf n) as [n _ IH]. intros s -> Hs.
  destruct s as [|c s]; [constructor|].
  destruct (Py.startswith (c :: s) A) eqn:Hhit.
  - rewrite replace_go_hit by done. apply Forall_app. split; [done|].
    eapply IH; [|reflexivity|by apply Forall_drop].
    rewrite length_drop. simpl. destruct A; [done|]. simpl. lia.
  - rewrite replace_go_miss by done. apply Forall_cons in Hs as [Hc Hs].
    constructor; [done|]. eapply IH; [|reflexivity|done]. simpl. lia.
Qed.

(** At a point where the scan stands, a prefix of the output that is a
    suffix of [X] was a prefix of the input. *)
Lemma replace_go_prefix X s :
  no_clash_from X B = true →
  Py.startswith (Py.replace_go A B 0 s) X = true →
  Py.startswith s X = true.
Proof.
  revert s. induction X as [|x X IH]; intros s Hsafe; [by rewrite !startswith_nil_r|].
  cbn [no_clash_from] in Hsafe. rewrite !andb_true_iff, !negb_true_iff in Hsafe.
  destruct Hsafe as [[HBX HXB] Hsafe].
  destruct s as [|c s]; [done|].
  destruct (Py.startswith (c :: s) A) eqn:Hhit.
  - rewrite replace_go_hit by done. intros H%startswith_app_clash.
    destruct H; congruence.
  - rewrite replace_go_miss by done. simpl.
    rewrite !andb_true_iff. intros [Hx H]. split; [done|]. by apply IH.
Qed.

Lemma occurs_drop X k s : occurs X (drop k s) = true → occurs X s = true.
Proof.
  revert s. induction k as [|k IH]; intros s; [done|].
  destruct s as [|c s]; [done|]. simpl drop. intros H%IH.
  simpl. rewrite H. apply orb_true_r.
Qed.

Lemma occurs_app_safe X rest :
  X ≠ [] →
  no_clash_into X B = true →
  occurs X (B ++ rest) = occurs X rest.
Proof.
  intros HX. induction B as [|b B' IH]; intros Hsafe; [done|].
  cbn [no_clash_into] in Hsafe. rewrite !andb_true_iff, !negb_true_iff in Hsafe.
  destruct Hsafe as [[HBX HXB] Hsafe].
  change ((b :: B') ++ rest) with (b :: (B' ++ rest)).
  simpl occurs. rewrite IH by done.
  destruct (Py.startswith (b :: B' ++ rest) X) eqn:E; [|done].
  apply (startswith_app_clash (b :: B')) in E. destruct E; congruence.
Qed.

(** The occurrences of [X] in the output: none of [A] itself, and none of
    a fragment that the input is free of. *)
Lemma replace_go_free X s :
  safe X B = true → X ≠ [] →
  X = A ∨ occurs X s = false →
  occurs X (Py.replace_go A B 0 s) = false.
Proof.
  unfold safe. rewrite andb_true_iff. intros [Hfrom Hinto] HX.
  remember (length s) as n eqn:Hn.
  revert s Hn. induction (lt_wf n) as [n _ IH]. intros s -> Hs.
  destruct s as [|c s]; [by destruct X|].
  destruct (Py.startswith (c :: s) A) eqn:Hhit.
  - rewrite replace_go_hit, occurs_app_safe by done.
    eapply IH; [|reflexivity|].
    + rewrite length_drop. simpl. destruct A; [done|]. simpl. lia.
    + destruct Hs as [->|Hs]; [by left|right].
      apply not_true_is_false. intros H%occurs_drop. congruence.
  - rewrite replace_go_miss by done. simpl occurs. apply orb_false_iff. split.
    + apply not_true_is_false.
      rewrite <- (replace_go_miss c s Hhit). intros H%replace_go_prefix; [|done].
      destruct Hs as [->|Hs]; [congruence|].
      simpl in Hs. apply orb_false_iff in Hs as [Hs _]. congruence.
    + eapply IH; [|reflexivity|]; [simpl; lia|].
      destruct Hs as [->|Hs]; [by left|right].
      simpl in Hs. by apply orb_false_iff in Hs as [_ Hs].
Qed.

End replace.

(** One replacement step on a text free of the fragments [Xs]. *)
Lemma replace_free Xs A B s :
  forallb (λ X, nonempty X && safe X B) (A :: Xs) = true →
  free_of Xs s →
  free_of (A :: Xs) (Py.replace A B s).
Proof.
  intros Hsafe Hfree.
  apply Is_true_true_2, forallb_True, Forall_cons in Hsafe as [HA Hsafe].
  apply andb_True in HA as [HA HAB].
  assert (A_nonempty : A ≠ []) by (by destruct A).
  rewrite replace_is_go by done. constructor.
  - apply replace_go_free; [done|by apply Is_true_true|done|by left].
  - unfold free_of in *. rewrite Forall_forall in Hsafe, Hfree |- *.
    intros X HX. specialize (Hsafe X HX). apply andb_True in Hsafe as [H1 H2].
    apply replace_go_free; [done|by apply Is_true_true|by destruct X|right; by apply Hfree].
Qed.

Lemma replace_fixed A B s : A ≠ [] → occurs A s = false → Py.replace A B s = s.
Proof. intros HA Hs. rewrite replace_is_go by done. by apply replace_go_noop. Qed.

Lemma replace_ascii A B s :
  A ≠ [] → ascii_text B → ascii_text s → ascii_text (Py.replace A B s).
Proof. intros HA HB Hs. rewrite replace_is_go by done. by apply replace_go_Forall. Qed.

Section sub_runs.

Variable cls : N → bool.

(** A text without characters of the class is left as it is. *)
Lemma sub_runs_go_class_free rep b s :
  Forall (λ c, cls c = false) s → Re.sub_runs_go cls rep b s = s.
Proof.
  intros Hs. revert b. induction Hs as [|c s Hc Hs IH]; intros b; simpl; [done|].
  by rewrite Hc, IH.
Qed.

(** Erasing the runs leaves no character of the class. *)
Lemma sub_runs_go_erased b s :
  Forall (λ c, cls c = false) (Re.sub_runs_go cls [] b s).
Proof.
  revert b. induction s as [|c s IH]; intros b; simpl; [constructor|].
  destruct (cls c) eqn:Hc.
  - destruct b; apply IH.
  - constructor; [done|apply IH].
Qed.

Lemma sub_runs_go_Forall (Q : N → Prop) rep b s :
  Forall Q rep → Forall Q s → Forall Q (Re.sub_runs_go cls rep b s).
Proof.
  intros Hrep Hs. revert b. induction Hs as [|c s Hc Hs IH]; intros b; simpl;
    [constructor|].
  destruct (cls c).
  - destruct b; [apply IH|]. apply Forall_app. split; [done|apply IH].
  - constructor; [done|apply IH].
Qed.

Variable r : N.

Local Abbreviation sub := (Re.sub_runs_go cls [r]).

(** The only character of the class left in the output is [r]. *)
Lemma sub_runs_go_class b s : Forall (λ c, cls c = true → c = r) (sub b s).
Proof.
  revert b. induction s as [|c s IH]; intros b; simpl; [constructor|].
  destruct (cls c) eqn:Hc.
  - destruct b; [apply IH|]. constructor; [done|apply IH].
  - constructor; [congruence|apply IH].
Qed.

(** When [r] is in the class, the output never has two [r] in a row. *)
Lemma sub_runs_go_no_pair b s :
  cls r = true →
  occurs [r; r] (sub b s) = false
  ∧ (b = true → Py.startswith (sub b s) [r] = false).
Proof.
  intros Hr. revert b. induction s as [|c s IH]; intros b; simpl; [done|].
  destruct (cls c) eqn:Hc.
  - destruct b; [apply IH|]. destruct (IH true) as [H1 H2].
    split; [|done]. simpl. rewrite H1. rewrite N.eqb_refl. simpl.
    specialize (H2 eq_refl). simpl in H2.
    destruct (sub true s) as [|c' s']; [done|]. by rewrite H2.
  - assert (Hne : (r =? c) = false) by (apply N.eqb_neq; congruence).
    destruct (IH false) as [H1 _]. simpl. rewrite Hne, H1. done.
Qed.

Lemma sub_runs_go_prefix X s :
  outside cls r X → Py.startswith (sub false s) X = true → Py.startswith s X = true.
Proof.
  intros HX. revert s. induction HX as [|x X [Hx Hxr] HX IH]; intros s;
    [by rewrite !startswith_nil_r|].
  destruct s as [|c s]; [done|]. simpl.
  destruct (cls c) eqn:Hc; simpl.
  - rewrite andb_true_iff, N.eqb_eq. by intros [? _].
  - rewrite !andb_true_iff. intros [? H]. split; [done|]. by apply IH.
Qed.

(** Such a fragment occurs in the output only if it occurs in the input. *)
Lemma sub_runs_go_free X b s :
  outside cls r X → X ≠ [] → occurs X s = false → occurs X (sub b s) = false.
Proof.
  intros HX Hne. revert b. induction s as [|c s IH]; intros b Hs; [by destruct X|].
  simpl in Hs. apply orb_false_iff in Hs as [Hhd Htl].
  simpl. destruct (cls c) eqn:Hc.
  - destruct b; simpl; [by apply IH|].
    rewrite (IH true Htl), orb_false_r.
    destruct HX as [|x X [_ Hx] _]; [done|]. simpl.
    apply andb_false_iff. left. by apply N.eqb_neq.
  - change (occurs X (c :: sub false s) = false). simpl occurs.
    rewrite (IH false Htl), orb_false_r.
    apply not_true_is_false. intros H.
    assert (H' : Py.startswith (sub false (c :: s)) X = true).
    { simpl. by rewrite Hc. }
    apply sub_runs_go_prefix in H'; [|done]. congruence.
Qed.

(** A text whose only character of the class is [r], never twice in a row,
    is left as it is. *)
Lemma sub_runs_go_fixed b s :
  Forall (λ c, cls c = true → c = r) s →
  occurs [r; r] s = false →
  (b = true → Py.startswith s [r] = false) →
  sub b s = s.
Proof.
  intros Hs. revert b. induction Hs as [|c s Hc Hs IH]; intros b Hrr Hb; [done|].
  simpl in Hrr. apply orb_false_iff in Hrr as [Hhd Htl].
  simpl. destruct (cls c) eqn:Hcls.
  - rewrite (Hc eq_refl) in *. rewrite N.eqb_refl in Hhd. simpl in Hhd.
    destruct b.
    + specialize (Hb eq_refl). simpl in Hb. by rewrite N.eqb_refl in Hb.
    + simpl. f_equal. apply IH; [done|]. intros _.
      destruct s as [|c' s']; [done|]. simpl.
      by destruct (r =? c').
  - f_equal. apply IH; [done|done].
Qed.

End sub_runs.

Lemma occurs_single x s : occurs [x] s = false ↔ Forall (λ c, c ≠ x) s.
Proof.
  induction s as [|c s IH]; simpl; [by split|].
  rewrite orb_false_iff, andb_true_r, IH, Forall_cons, N.eqb_neq.
  split; intros [H1 H2]; split; congruence.
Qed.

Lemma free_of_elem Xs s X : free_of Xs s → X ∈ Xs → occurs X s = false.
Proof. unfold free_of. rewrite Forall_forall. auto. Qed.

Lemma is_non_ascii_false s : ascii_text s ↔ Forall (λ c, is_non_ascii c = false) s.
Proof.
  unfold ascii_text, is_non_ascii. apply Forall_iff. intros c.
  by rewrite negb_false_iff.
Qed.

(** The normalizer returns pure ASCII. *)
Lemma preprocess_ascii text0 : ascii_text (preprocess_ocr_text text0).
Proof.
  unfold preprocess_ocr_text, Re.sub_runs.
  apply sub_runs_go_Forall; [by repeat constructor|].
  apply is_non_ascii_false, sub_runs_go_erased.
Qed.

(** On an ASCII text the normalizer leaves none of the fragments. *)
Lemma preprocess_free text0 :
  ascii_text text0 → free_of fragments (preprocess_ocr_text text0).
Proof.
  intros Hascii. unfold preprocess_ocr_text, Re.sub_runs.
  set (t1 := Re.sub_runs_go is_crlf _ false text0).
  set (t2 := Re.sub_runs_go is_blank _ false t1).
  set (t3 := Py.replace (str "Sen Faktur") _ t2).
  set (t4 := Py.replace (str "NPWP |") _ t3).
  set (t5 := Py.replace (str "NPWP |") _ t4).
  set (t6 := Py.replace (str "NPWP :") _ t5).
  set (t7 := Py.replace (str "NIKPaspor") _ t6).
  set (t8 := Py.replace (str "Palak") _ t7).
  assert (H1 : free_of [[13]; [10; 10]] t1).
  { repeat constructor.
    - apply occurs_single.
      eapply Forall_impl; [apply (sub_runs_go_class is_crlf 10)|].
      intros c Hc ->. by specialize (Hc eq_refl).
    - by apply (sub_runs_go_no_pair is_crlf 10). }
  assert (H2 : free_of [[9]; [32; 32]; [13]; [10; 10]] t2).
  { repeat constructor.
    - apply occurs_single.
      eapply Forall_impl; [apply (sub_runs_go_class is_blank 32)|].
      intros c Hc ->. by specialize (Hc eq_refl).
    - by apply (sub_runs_go_no_pair is_blank 32).
    - apply (sub_runs_go_free is_blank 32); [by repeat constructor|done|].
      apply (free_of_elem _ _ _ H1). elem_of_literals.
    - apply (sub_runs_go_free is_blank 32); [by repeat constructor|done|].
      apply (free_of_elem _ _ _ H1). elem_of_literals. }
  assert (H3 : free_of (str "Sen Faktur" :: [[9]; [32; 32]; [13]; [10; 10]]) t3)
    by (by apply replace_free).
  assert (H4 : free_of (str "NPWP |" :: str "Sen Faktur"
                          :: [[9]; [32; 32]; [13]; [10; 10]]) t4)
    by (by apply replace_free).
  assert (E5 : t5 = t4).
  { apply replace_fixed; [done|]. apply (free_of_elem _ _ _ H4). elem_of_literals. }
  assert (H6 : free_of (str "NPWP :" :: str "NPWP |" :: str "Sen Faktur"
                          :: [[9]; [32; 32]; [13]; [10; 10]]) t6).
  { apply replace_free; [done|]. by rewrite E5. }
  assert (H7 : free_of (str "NIKPaspor" :: str "NPWP :" :: str "NPWP |"
                          :: str "Sen Faktur" :: [[9]; [32; 32]; [13]; [10; 10]]) t7)
    by (by apply replace_free).
  assert (H8 : free_of fragments t8) by (by apply replace_free).
  assert (A8 : ascii_text t8).
  { repeat (apply replace_ascii; [done|by repeat constructor|]).
    repeat (apply sub_runs_go_Forall; [by repeat constructor|]). done. }
  rewrite (sub_runs_go_class_free is_non_ascii) by (by apply is_non_ascii_false).
  rewrite (sub_runs_go_fixed is_sp 32); [done| | |done].
  - apply Forall_true. intros c Hc. by apply N.eqb_eq.
  - apply (free_of_elem _ _ _ H8). elem_of_literals.
Qed.

(** An ASCII text free of the fragments is a fixed point of the
    normalizer. *)
Lemma preprocess_fixed u :
  ascii_text u → free_of fragments u → preprocess_ocr_text u = u.
Proof.
  intros Hascii Hfree. unfold preprocess_ocr_text, Re.sub_runs.
  assert (H13 : Forall (λ c, c ≠ 13) u).
  { apply occurs_single, (free_of_elem _ _ _ Hfree). elem_of_literals. }
  assert (H9 : Forall (λ c, c ≠ 9) u).
  { apply occurs_single, (free_of_elem _ _ _ Hfree). elem_of_literals. }
  rewrite (sub_runs_go_fixed is_crlf 10); [| | |done].
  2:{ eapply Forall_impl; [exact H13|]. intros c Hc. unfold is_crlf.
      rewrite orb_true_iff, !N.eqb_eq. by intros [?|?]. }
  2:{ apply (free_of_elem _ _ _ Hfree). elem_of_literals. }
  rewrite (sub_runs_go_fixed is_blank 32); [| | |done].
  2:{ eapply Forall_impl; [exact H9|]. intros c Hc. unfold is_blank.
      rewrite orb_true_iff, !N.eqb_eq. by intros [?|?]. }
  2:{ apply (free_of_elem _ _ _ Hfree). elem_of_literals. }
  rewrite (replace_fixed (str "Sen Faktur") _ u),
          (replace_fixed (str "NPWP |") _ u),
          (replace_fixed (str "NPWP |") _ u),
          (replace_fixed (str "NPWP :") _ u),
          (replace_fixed (str "NIKPaspor") _ u),
          (replace_fixed (str "Palak") _ u);
    try done; try (apply (free_of_elem _ _ _ Hfree); elem_of_literals).
  rewrite (sub_runs_go_class_free is_non_ascii) by (by apply is_non_ascii_false).
  rewrite (sub_runs_go_fixed is_sp 32); [done| | |done].
  - apply Forall_true. intros c Hc. by apply N.eqb_eq.
  - apply (free_of_elem _ _ _ Hfree). elem_of_literals.
Qed.

(** C3 as stated fails: the accented letter is removed after the
    corrections have run, so the misread word that it hid is corrected only
    by a second pass. *)
Lemma preprocess_not_idempotent :
  preprocess_ocr_text accented_palak = str "Palak"
  ∧ preprocess_ocr_text (preprocess_ocr_text accented_palak) = str "Pajak"
  ∧ preprocess_ocr_text (preprocess_ocr_text accented_palak)
    ≠ preprocess_ocr_text accented_palak.
Proof. by vm_compute. Qed.

(** C3, as the code has it. On a text of ASCII characters the normalizer is
    idempotent; on every text a second pass reaches a fixed point, which a
    third pass leaves unchanged. *)
Theorem preprocess_idempotent_ascii (text0 : text) :
  (ascii_text text0 →
   preprocess_ocr_text (preprocess_ocr_text text0) = preprocess_ocr_text text0)
  ∧ preprocess_ocr_text (preprocess_ocr_text (preprocess_ocr_text text0))
    = preprocess_ocr_text (preprocess_ocr_text text0).
Proof.
  assert (H : ∀ t, ascii_text t →
            preprocess_ocr_text (preprocess_ocr_text t) = preprocess_ocr_text t).
  { intros t Ht. apply preprocess_fixed; [apply preprocess_ascii|by apply preprocess_free]. }
  split; [apply H|]. apply H, preprocess_ascii.
Qed.

Lemma preprocess_idempotent_ascii_witness :
  preprocess_ocr_text (preprocess_ocr_text (str "NPWP  |  01.234 Sen   Faktur Palak"))
  = preprocess_ocr_text (str "NPWP  |  01.234 Sen   Faktur Palak")
  ∧ preprocess_ocr_text (str "NPWP  |  01.234 Sen   Faktur Palak")
    = str "NPWP: 01.234 Seri Faktur Pajak".
Proof.
  split; [|by vm_compute].
  destruct (preprocess_idempotent_ascii (str "NPWP  |  01.234 Sen   Faktur Palak"))
    as [H _].
  apply H. apply (bool_decide_unpack _). by vm_compute.
Defined.

(** ** Matcher *)

Lemma rep_match_inv {R} cls lo hi (k : text → option R) n s res :
  rep_match cls lo hi k n s = Some res →
  ∃ p s', s = p ++ s' ∧ k s' = Some res ∧ (lo ≤ n + length p)%nat.
Proof.
  revert n. induction s as [|c s IH]; intros n; simpl.
  - destruct (lo <=? n)%nat eqn:Hlo; [|done]. apply Nat.leb_le in Hlo.
    intros Hk. exists [], []. simpl. split_and!; [done|done|lia].
  - assert (Hstop : (if (lo <=? n)%nat then k (c :: s) else None) = Some res →
              ∃ p s', c :: s = p ++ s' ∧ k s' = Some res ∧ (lo ≤ n + length p)%nat).
    { destruct (lo <=? n)%nat eqn:Hlo; [|done]. apply Nat.leb_le in Hlo.
      intros Hk. exists [], (c :: s). simpl. split_and!; [done|done|lia]. }
    destruct (cls c && from_option (λ h : nat, (n <? h)%nat) true hi); [|done].
    destruct (rep_match cls lo hi k (S n) s) as [res'|] eqn:Hrec; [|done].
    intros [= ->]. destruct (IH _ Hrec) as (p & s' & -> & Hk & Hlen).
    exists (c :: p), s'. simpl. split_and!; [done|done|lia].
Qed.

Lemma rmatch_inv {R} r s caps (k : text → gmap nat text → option R) res :
  rmatch r s caps k = Some res →
  ∃ p s' caps',
    s = p ++ s' ∧ k s' caps' = Some res ∧ (min_len r ≤ length p)%nat
    ∧ ∀ i, is_Some (caps !! i) ∨ sets_group i r = true → is_Some (caps' !! i).
Proof.
  revert s caps k res.
  induction r as [|cls|cls lo hi|a IHa b IHb|a IHa b IHb|j a IHa];
    intros s caps k res; simpl.
  - intros Hk. exists [], s, caps. simpl. split_and!; [done|done|lia|].
    by intros i [?|?].
  - destruct s as [|c s]; [done|]. destruct (cls c); [|done].
    intros Hk. exists [c], s, caps. simpl. split_and!; [done|done|lia|].
    by intros i [?|?].
  - intros (p & s' & -> & Hk & Hlen)%rep_match_inv.
    exists p, s', caps. split_and!; [done|done|lia|]. by intros i [?|?].
  - intros (p1 & s1 & caps1 & -> & Hb & Hlen1 & Hcaps1)%IHa.
    apply IHb in Hb as (p2 & s2 & caps2 & -> & Hk & Hlen2 & Hcaps2).
    exists (p1 ++ p2), s2, caps2. rewrite length_app, <- app_assoc.
    split_and!; [done|done|lia|].
    intros i [Hi|[Hi|Hi]%orb_true_iff]; apply Hcaps2; auto.
  - destruct (rmatch a s caps k) as [res'|] eqn:Ha.
    + intros [= ->]. apply IHa in Ha as (p & s' & caps' & -> & Hk & Hlen & Hcaps).
      exists p, s', caps'. split_and!; [done|done|lia|].
      intros i [Hi|[Hi _]%andb_true_iff]; apply Hcaps; auto.
    + intros (p & s' & caps' & -> & Hk & Hlen & Hcaps)%IHb.
      exists p, s', caps'. split_and!; [done|done|lia|].
      intros i [Hi|[_ Hi]%andb_true_iff]; apply Hcaps; auto.
  - intros (p & s' & caps' & -> & Hk & Hlen & Hcaps)%IHa.
    eexists p, s', _. split_and!; [done|exact Hk|done|].
    intros i Hi. destruct (decide (i = j)) as [->|Hne].
    + rewrite lookup_insert_eq. by eexists.
    + rewrite lookup_insert_ne by done. apply Hcaps.
      destruct Hi as [Hi|[Hi|Hi]%orb_true_iff]; auto.
      by apply bool_decide_eq_true in Hi.
Qed.

(** A match starts where it is tried, stays inside the subject, takes at
    least [min_len r] characters and defines the groups that every match of
    [r] goes through. *)
Lemma match_here_inv r pos s m :
  match_here r pos s = Some m →
  m_start m = pos
  ∧ (pos + min_len r ≤ m_end m ≤ pos + length s)%nat
  ∧ ∀ i, sets_group i r = true → is_Some (m_groups m !! i).
Proof.
  unfold match_here.
  intros (p & s' & caps' & -> & [= <-] & Hlen & Hcaps)%rmatch_inv. simpl.
  rewrite length_app. split_and!; [done|lia|lia|]. intros i Hi. apply Hcaps. auto.
Qed.

Lemma search_at_inv r pos s m :
  search_at r pos s = Some m →
  (pos ≤ m_start m)%nat
  ∧ (m_start m + min_len r ≤ m_end m ≤ pos + length s)%nat
  ∧ ∀ i, sets_group i r = true → is_Some (m_groups m !! i).
Proof.
  revert pos. induction s as [|c s IH]; intros pos; simpl.
  - destruct (match_here r pos []) as [m'|] eqn:Hm; [|done].
    intros [= ->]. apply match_here_inv in Hm as (-> & ? & ?). simpl in *.
    split_and!; [lia|lia|lia|done].
  - destruct (match_here r pos (c :: s)) as [m'|] eqn:Hm.
    + intros [= ->]. apply match_here_inv in Hm as (-> & ? & ?). simpl in *.
      split_and!; [lia|lia|lia|done].
    + intros (? & ? & ?)%IH. split_and!; [lia|lia|lia|done].
Qed.

Lemma finditer_head r pos s : head (finditer_at r pos O s) = search_at r pos s.
Proof.
  revert pos. induction s as [|c s IH]; intros pos; simpl.
  - by destruct (match_here r pos []).
  - destruct (match_here r pos (c :: s)); [done|]. apply IH.
Qed.

(** The first element of [re.finditer] is the match of [re.search]. *)
Lemma re_finditer_head r s : head (re_finditer r s) = re_search r s.
Proof. apply finditer_head. Qed.

Lemma finditer_at_inv r pos skip s m :
  m ∈ finditer_at r pos skip s →
  (m_start m + min_len r ≤ m_end m)%nat
  ∧ ∀ i, sets_group i r = true → is_Some (m_groups m !! i).
Proof.
  revert pos skip. induction s as [|c s IH]; intros pos skip; simpl.
  - destruct skip; [|by intros ?%elem_of_nil].
    destruct (match_here r pos []) as [m'|] eqn:Hm; [|by intros ?%elem_of_nil].
    intros ->%list_elem_of_singleton.
    apply match_here_inv in Hm as (-> & ? & ?). split; [lia|done].
  - destruct skip; [|apply IH].
    destruct (match_here r pos (c :: s)) as [m'|] eqn:Hm; [|apply IH].
    intros [->|Hin]%elem_of_cons; [|by eapply IH].
    apply match_here_inv in Hm as (-> & ? & ?). split; [lia|done].
Qed.

(** The patterns of the extractor take at least one character and define
    the groups that the extractor reads. *)
Lemma extractor_patterns_groups :
  Forall (λ '(r, i), sets_group i r = true ∧ (1 ≤ min_len r)%nat)
    [(RE_NPWP, 1%nat); (RE_NAMA, 1%nat); (RE_NOMOR_FAKTUR, 1%nat);
     (RE_TANGGAL_FAKTUR, 1%nat); (RE_JUMLAH_DPP, 1%nat); (RE_JUMLAH_PPN, 1%nat);
     (RE_TANGGAL_FALLBACK, 1%nat); (RE_TANGGAL_FALLBACK, 2%nat);
     (RE_TANGGAL_FALLBACK, 3%nat)].
Proof. repeat constructor; by vm_compute. Qed.

Lemma finditer_at_skip r pos k s :
  (k ≤ length s)%nat →
  finditer_at r pos k s = finditer_at r (pos + k) 0 (drop k s).
Proof.
  revert pos k. induction s as [|c s IH]; intros pos k Hk.
  - simpl in Hk. assert (k = 0%nat) as -> by lia. by rewrite Nat.add_0_r.
  - destruct k as [|k]; [by rewrite Nat.add_0_r|].
    simpl in Hk. cbn [finditer_at drop]. rewrite IH by lia.
    by replace (S pos + k)%nat with (pos + S k)%nat by lia.
Qed.

(** [re.finditer] as repeated search: each match is the leftmost one at or
    after the end of the previous match, one character further after an
    empty match. *)
Lemma finditer_at_search r pos s :
  finditer_at r pos 0 s =
    match search_at r pos s with
    | None => []
    | Some m =>
        m :: if (m_start m <? m_end m)%nat
             then finditer_at r (m_end m) 0 (drop (m_end m - pos) s)
             else match drop (m_end m - pos) s with
                  | [] => []
                  | _ :: s' => finditer_at r (S (m_end m)) 0 s'
                  end
    end.
Proof.
  revert pos. induction s as [|c s IH]; intros pos.
  - simpl. destruct (match_here r pos []) as [m|] eqn:Hm; [|done].
    apply match_here_inv in Hm as (Hs & He & _). simpl in He.
    rewrite (proj2 (Nat.ltb_ge _ _)) by lia. by rewrite drop_nil.
  - cbn [finditer_at search_at].
    destruct (match_here r pos (c :: s)) as [m|] eqn:Hm.
    + apply match_here_inv in Hm as (Hs & He & _). simpl in He. f_equal.
      destruct (m_start m <? m_end m)%nat eqn:Hlt.
      * apply Nat.ltb_lt in Hlt.
        rewrite finditer_at_skip by lia.
        replace (m_end m - pos)%nat with (S (pred (m_end m - pos))) by lia.
        cbn [drop]. f_equal. lia.
      * apply Nat.ltb_ge in Hlt.
        replace (m_end m - pos)%nat with 0%nat by lia. simpl.
        by replace (m_end m) with pos by lia.
    + rewrite IH. destruct (search_at r (S pos) s) as [m|] eqn:Hm'; [|done].
      apply search_at_inv in Hm' as (Hs & He & _).
      replace (m_end m - pos)%nat with (S (m_end m - S pos)) by lia. done.
Qed.

(** For a pattern that takes at least one character, the second element of
    [re.finditer] is the leftmost match that starts at or after the end of
    the first one. *)
Lemma re_finditer_second r s :
  (1 ≤ min_len r)%nat →
  re_finditer r s !! 1%nat
  = m ← re_search r s; search_at r (m_end m) (drop (m_end m) s).
Proof.
  intros Hlen. unfold re_finditer, re_search. rewrite finditer_at_search.
  destruct (search_at r 0 s) as [m|] eqn:Hm; [|done]. simpl.
  apply search_at_inv in Hm as (_ & He & _).
  rewrite (proj2 (Nat.ltb_lt _ _)) by lia.
  rewrite Nat.sub_0_r. rewrite <- finditer_head.
  by destruct (finditer_at r (m_end m) 0 (drop (m_end m) s)).
Qed.

(** ** Reconciler *)

Lemma compare_step_rule pdf_data djp_data acc f :
  compare_step pdf_data djp_data acc f
  = acc ++ option_list (deviation_rule pdf_data djp_data f).
Proof.
  unfold compare_step, deviation_rule.
  destruct (dict_get pdf_data f) as [p|], (dict_get djp_data f) as [r|];
    repeat case_bool_decide; repeat case_decide; simplify_eq; simpl;
    rewrite ?app_nil_r; try done.
Qed.

Lemma compare_loop_rule pdf_data djp_data fs acc :
  foldl (compare_step pdf_data djp_data) acc fs
  = acc ++ omap (deviation_rule pdf_data djp_data) fs.
Proof.
  revert acc. induction fs as [|f fs IH]; intros acc; simpl.
  - by rewrite app_nil_r.
  - rewrite IH, compare_step_rule.
    destruct (deviation_rule pdf_data djp_data f); simpl.
    + by rewrite <- app_assoc.
    + by rewrite app_nil_r.
Qed.

Lemma compare_fields_rule pdf_data djp_data :
  compare_fields pdf_data djp_data = omap (deviation_rule pdf_data djp_data) FIELDS.
Proof. unfold compare_fields. by rewrite compare_loop_rule. Qed.

Lemma deviation_rule_field pdf_data djp_data f d :
  deviation_rule pdf_data djp_data f = Some d → field d = f.
Proof.
  unfold deviation_rule.
  destruct (dict_get pdf_data f), (dict_get djp_data f);
    try case_decide; intros; simplify_eq; done.
Qed.

Lemma omap_rule_fields pdf_data djp_data fs :
  field <$> omap (deviation_rule pdf_data djp_data) fs `sublist_of` fs.
Proof.
  induction fs as [|f fs IH]; simpl; [constructor|].
  destruct (deviation_rule pdf_data djp_data f) as [d|] eqn:E; simpl.
  - rewrite (deviation_rule_field _ _ _ _ E). by constructor.
  - by constructor.
Qed.

Lemma NoDup_FIELDS : NoDup FIELDS.
Proof. apply (bool_decide_unpack _). by vm_compute. Qed.

(** C1. For every pair of mappings, [compare_fields] walks the eight fields
    in their fixed order and reports for each field exactly what the rule
    says: nothing when both values are absent or both are present and
    equal, [missing_in_pdf] when only the reference value is present,
    [missing_in_api] when only the extracted value is present, [mismatch]
    when both are present and differ as strings. The reported fields form a
    subsequence of the fixed list, so the output has at most 8 deviations
    and no field is reported twice. *)
Theorem compare_fields_spec (pdf_data djp_data : Dict) :
  let out := compare_fields pdf_data djp_data in
  out = omap (deviation_rule pdf_data djp_data) FIELDS
  ∧ (field <$> out) `sublist_of` FIELDS
  ∧ (length out ≤ 8)%nat
  ∧ NoDup (field <$> out)
  ∧ (∀ f, f ∈ FIELDS →
       match dict_get pdf_data f, dict_get djp_data f with
       | None, None => f ∉ field <$> out
       | None, Some r => mkDeviation f None (Some r) "missing_in_pdf" ∈ out
       | Some p, None => mkDeviation f (Some p) None "missing_in_api" ∈ out
       | Some p, Some r =>
           if decide (p = r) then f ∉ field <$> out
           else mkDeviation f (Some p) (Some r) "mismatch" ∈ out
       end).
Proof.
  intros out.
  assert (Hout : out = omap (deviation_rule pdf_data djp_data) FIELDS)
    by apply compare_fields_rule.
  assert (Hsub : (field <$> out) `sublist_of` FIELDS)
    by (rewrite Hout; apply omap_rule_fields).
  split_and!; try done.
  - apply sublist_length in Hsub. by rewrite length_fmap in Hsub.
  - eapply sublist_NoDup; [apply NoDup_FIELDS | exact Hsub].
  - intros f Hf.
    assert (Hin : ∀ d, deviation_rule pdf_data djp_data f = Some d → d ∈ out).
    { intros d Hd. rewrite Hout. apply list_elem_of_omap. eauto. }
    assert (Hnot : deviation_rule pdf_data djp_data f = None → f ∉ field <$> out).
    { intros Hd [d [-> Hd']]%list_elem_of_fmap.
      rewrite Hout in Hd'. apply list_elem_of_omap in Hd' as (f' & Hf' & Hr).
      pose proof (deviation_rule_field _ _ _ _ Hr) as E. rewrite E in Hd.
      congruence. }
    unfold deviation_rule in Hin, Hnot.
    destruct (dict_get pdf_data f) as [p|], (dict_get djp_data f) as [r|];
      try case_decide; auto.
Qed.

Lemma deviation_rule_swap a b f :
  option_Forall2 swapped (deviation_rule a b f) (deviation_rule b a f).
Proof.
  unfold deviation_rule.
  destruct (dict_get a f) as [p|], (dict_get b f) as [r|];
    repeat case_decide; simplify_eq; constructor; unfold swapped; simpl;
    split_and!; done.
Qed.

Lemma deviation_rule_swapped a b fs :
  Forall2 swapped (omap (deviation_rule a b) fs) (omap (deviation_rule b a) fs).
Proof.
  induction fs as [|f fs IH]; simpl; [constructor|].
  destruct (deviation_rule_swap a b f); [by constructor | done].
Qed.

(** C7. [compare_fields b a] reports the same fields as
    [compare_fields a b], in the same order; each [missing_in_pdf] becomes
    [missing_in_api] and conversely, and each [mismatch] stays a
    [mismatch] with its two values exchanged. *)
Theorem compare_fields_swap (a b : Dict) :
  Forall2 swapped (compare_fields a b) (compare_fields b a)
  ∧ field <$> compare_fields b a = field <$> compare_fields a b.
Proof.
  assert (H : Forall2 swapped (compare_fields a b) (compare_fields b a))
    by (rewrite !compare_fields_rule; apply deviation_rule_swapped).
  split; [done|].
  induction H as [|d d' l l' Hd _ IH]; csimpl; [done|].
  destruct Hd as [E _]. by rewrite E, IH.
Qed.

(** ** Field extractor *)

Lemma scalar_step_dom txt (fields : Dict) f p :
  dom (scalar_step txt fields (f, p)) = {[f]} ∪ dom fields.
Proof.
  unfold scalar_step.
  destruct (re_search p txt); [by rewrite dom_insert_L|].
  destruct (if bool_decide (f = "tanggalFaktur") then tanggal_fallback txt else None);
    by rewrite dom_insert_L.
Qed.

Lemma scalar_step_lookup_ne txt (fields : Dict) f p k :
  k ≠ f → scalar_step txt fields (f, p) !! k = fields !! k.
Proof.
  intros Hne. unfold scalar_step.
  destruct (re_search p txt); [by rewrite lookup_insert_ne|].
  destruct (if bool_decide (f = "tanggalFaktur") then tanggal_fallback txt else None);
    by rewrite lookup_insert_ne.
Qed.

Lemma scalar_loop_lookup_ne txt ps (fields : Dict) k :
  k ∉ ps.*1 → foldl (scalar_step txt) fields ps !! k = fields !! k.
Proof.
  revert fields. induction ps as [|[f p] ps IH]; intros fields Hk; simpl; [done|].
  rewrite fmap_cons, not_elem_of_cons in Hk. destruct Hk as [Hne Hk].
  rewrite IH by done. by apply scalar_step_lookup_ne.
Qed.

(** The party fields, set before the loop, are not touched by it. *)
Lemma parse_pdf_fields_party text0 k :
  k ∈ ["npwpPenjual"; "namaPenjual"; "npwpPembeli"; "namaPembeli"] →
  parse_pdf_fields text0 !! k =
    let txt := preprocess_ocr_text text0 in
    if decide (k = "npwpPenjual") then Some (npwp_penjual txt)
    else if decide (k = "namaPenjual") then Some (nama_penjual txt)
    else if decide (k = "npwpPembeli") then Some (npwp_pembeli txt)
    else Some (nama_pembeli txt).
Proof.
  intros Hk. unfold parse_pdf_fields.
  rewrite scalar_loop_lookup_ne.
  - repeat (apply elem_of_cons in Hk as [->|Hk]; [by simplify_map_eq|]).
    by apply elem_of_nil in Hk.
  - repeat (apply elem_of_cons in Hk as [->|Hk];
            [apply (bool_decide_unpack _); by vm_compute|]).
    by apply elem_of_nil in Hk.
Qed.

(** C9. For every input text the result of [parse_pdf_fields] has exactly
    the eight field names as its keys; each key is bound to a string or to
    [None], and no other key is bound. *)
Theorem parse_pdf_fields_keys (text0 : text) :
  dom (parse_pdf_fields text0) = list_to_set FIELDS
  ∧ ∀ k, is_Some (parse_pdf_fields text0 !! k) ↔ k ∈ FIELDS.
Proof.
  assert (Hdom : dom (parse_pdf_fields text0) =@{gset string} list_to_set FIELDS).
  { unfold parse_pdf_fields, patterns. cbn [foldl].
    rewrite !scalar_step_dom, !dom_insert_L, dom_empty_L.
    unfold FIELDS. simpl. set_solver. }
  split; [done|].
  intros k. rewrite <- elem_of_dom, Hdom. apply elem_of_list_to_set.
Qed.

Lemma truthy_false v : Py.truthy v = false ↔ v = None ∨ v = Some [].
Proof.
  destruct v as [[|c s]|]; simpl; split; auto; try done.
  by intros [?|?].
Qed.

Lemma extract_in_falsy extract section :
  section = [] ∨ extract section = None ∨ extract section = Some [] →
  Py.truthy (extract_in extract section) = false.
Proof.
  unfold extract_in. intros [->|[H|H]]; [done|..];
    destruct section; simpl; try rewrite H; done.
Qed.

(** C4. On the normalized text, when the buyer section yields no tax-ID
    (the section is empty, has no NPWP-labelled match, or its match holds no
    digit), [npwpPembeli] is the second NPWP-labelled occurrence of the
    whole text with its non-digits stripped, and it is absent when the
    whole text has fewer than two occurrences; likewise [namaPembeli] is the
    trimmed second Nama-labelled occurrence when the buyer section yields
    no name, and absent when there are fewer than two. *)
Theorem buyer_fallback (text0 : text) :
  let txt := preprocess_ocr_text text0 in
  let section := pembeli_section txt in
  let all_npwp := re_finditer RE_NPWP txt in
  let all_nama := re_finditer RE_NAMA txt in
  ((section = [] ∨ extract_npwp section = None ∨ extract_npwp section = Some []) →
     parse_pdf_fields text0 !! "npwpPembeli"
       = Some ((λ m, Re.sub_chars is_non_digit [] (group m 1)) <$> all_npwp !! 1%nat)
     ∧ ((length all_npwp < 2)%nat →
          parse_pdf_fields text0 !! "npwpPembeli" = Some None))
  ∧ ((section = [] ∨ extract_nama section = None ∨ extract_nama section = Some []) →
     parse_pdf_fields text0 !! "namaPembeli"
       = Some ((λ m, Py.strip (group m 1)) <$> all_nama !! 1%nat)
     ∧ ((length all_nama < 2)%nat →
          parse_pdf_fields text0 !! "namaPembeli" = Some None)).
Proof.
  intros txt section all_npwp all_nama. split; intros Hno.
  - assert (E : parse_pdf_fields text0 !! "npwpPembeli"
                = Some ((λ m, Re.sub_chars is_non_digit [] (group m 1))
                          <$> all_npwp !! 1%nat)).
    { rewrite parse_pdf_fields_party by elem_of_literals. simpl. f_equal.
      unfold npwp_pembeli. fold txt section.
      rewrite (extract_in_falsy _ _ Hno). simpl. fold all_npwp.
      case_bool_decide as Hlen; [done|].
      rewrite lookup_ge_None_2 by lia. done. }
    split; [done|]. intros Hlen. rewrite E.
    rewrite lookup_ge_None_2 by lia. done.
  - assert (E : parse_pdf_fields text0 !! "namaPembeli"
                = Some ((λ m, Py.strip (group m 1)) <$> all_nama !! 1%nat)).
    { rewrite parse_pdf_fields_party by elem_of_literals. simpl. f_equal.
      unfold nama_pembeli. fold txt section.
      rewrite (extract_in_falsy _ _ Hno). simpl. fold all_nama.
      case_bool_decide as Hlen; [done|].
      rewrite lookup_ge_None_2 by lia. done. }
    split; [done|]. intros Hlen. rewrite E.
    rewrite lookup_ge_None_2 by lia. done.
Qed.

Lemma buyer_fallback_witness :
  pembeli_section (preprocess_ocr_text scenario_a) = []
  ∧ parse_pdf_fields scenario_a !! "npwpPembeli" = Some (Some (str "023456789217000"))
  ∧ parse_pdf_fields scenario_a !! "namaPembeli" = Some (Some (str "PT XYZ")).
Proof.
  assert (Hsec : pembeli_section (preprocess_ocr_text scenario_a) = [])
    by (vm_compute; reflexivity).
  destruct (buyer_fallback scenario_a) as [Hnpwp Hnama].
  destruct (Hnpwp (or_introl Hsec)) as [E1 _].
  destruct (Hnama (or_introl Hsec)) as [E2 _].
  split; [exact Hsec|]. split.
  - rewrite E1. vm_compute. reflexivity.
  - rewrite E2. vm_compute. reflexivity.
Defined.

(** C5, as the code has it. On the normalized text, [npwpPenjual] is the
    NPWP-labelled match of the seller section when that section is
    non-empty and its match holds at least one digit; in every other case
    (the section is empty, has no NPWP-labelled match, or its match holds no
    digit) it is the first NPWP-labelled match of the whole text, absent
    only when the whole text has none. The same holds for [namaPenjual] and
    the Nama-labelled matches. *)
Theorem seller_fields (text0 : text) :
  let txt := preprocess_ocr_text text0 in
  let section := penjual_section txt in
  (∀ v, section ≠ [] → extract_npwp section = Some v → v ≠ [] →
     parse_pdf_fields text0 !! "npwpPenjual" = Some (Some v))
  ∧ ((section = [] ∨ extract_npwp section = None ∨ extract_npwp section = Some []) →
     parse_pdf_fields text0 !! "npwpPenjual" = Some (extract_npwp txt))
  ∧ (∀ v, section ≠ [] → extract_nama section = Some v → v ≠ [] →
     parse_pdf_fields text0 !! "namaPenjual" = Some (Some v))
  ∧ ((section = [] ∨ extract_nama section = None ∨ extract_nama section = Some []) →
     parse_pdf_fields text0 !! "namaPenjual" = Some (extract_nama txt)).
Proof.
  intros txt section. split_and!.
  - intros v Hsec Hv Hne. rewrite parse_pdf_fields_party by elem_of_literals.
    simpl. f_equal. unfold npwp_penjual, extract_in. fold txt section.
    destruct section; [done|]. simpl. rewrite Hv. by destruct v.
  - intros Hno. rewrite parse_pdf_fields_party by elem_of_literals.
    simpl. f_equal. unfold npwp_penjual. fold txt section.
    by rewrite (extract_in_falsy _ _ Hno).
  - intros v Hsec Hv Hne. rewrite parse_pdf_fields_party by elem_of_literals.
    simpl. f_equal. unfold nama_penjual, extract_in. fold txt section.
    destruct section; [done|]. simpl. rewrite Hv. by destruct v.
  - intros Hno. rewrite parse_pdf_fields_party by elem_of_literals.
    simpl. f_equal. unfold nama_penjual. fold txt section.
    by rewrite (extract_in_falsy _ _ Hno).
Qed.

(** C5 as stated fails: the seller section is non-empty and holds no
    NPWP-labelled match and no Nama-labelled match, yet both seller fields
    are present, taken from the text before the section. *)
Lemma seller_section_only_refuted :
  penjual_section (preprocess_ocr_text early_labels) = str "Pengusaha Kena Pajak
Alamat: Jalan Gatot Subroto"
  ∧ re_search RE_NPWP (penjual_section (preprocess_ocr_text early_labels)) = None
  ∧ re_search RE_NAMA (penjual_section (preprocess_ocr_text early_labels)) = None
  ∧ parse_pdf_fields early_labels !! "npwpPenjual" = Some (Some (str "012345678012000"))
  ∧ parse_pdf_fields early_labels !! "namaPenjual" = Some (Some (str "PT ABC")).
Proof. vm_compute. split_and!; reflexivity. Qed.

Lemma seller_fields_witness :
  parse_pdf_fields seller_labels !! "npwpPenjual" = Some (Some (str "012345678012000"))
  ∧ parse_pdf_fields early_labels !! "npwpPenjual"
    = Some (extract_npwp (preprocess_ocr_text early_labels))
  ∧ parse_pdf_fields seller_labels !! "namaPenjual" = Some (Some (str "PT ABC"))
  ∧ parse_pdf_fields early_labels !! "namaPenjual"
    = Some (extract_nama (preprocess_ocr_text early_labels)).
Proof.
  destruct (seller_fields seller_labels) as (H1 & _ & H3 & _).
  destruct (seller_fields early_labels) as (_ & H2 & _ & H4).
  split_and!.
  - apply H1; [by vm_compute | by vm_compute | by vm_compute].
  - apply H2. right; left. by vm_compute.
  - apply H3; [by vm_compute | by vm_compute | by vm_compute].
  - apply H4. right; left. by vm_compute.
Defined.

(** The invoice date: the primary pattern when it matches, the
    ['PLACE, DD MONTH YYYY'] fallback otherwise. *)
Lemma parse_pdf_fields_tanggal text0 :
  let txt := preprocess_ocr_text text0 in
  parse_pdf_fields text0 !! "tanggalFaktur" =
    Some match re_search RE_TANGGAL_FAKTUR txt with
         | Some m => Some (Py.strip (group m 1))
         | None => tanggal_fallback txt
         end.
Proof.
  intros txt. unfold parse_pdf_fields, patterns. fold txt. cbn [foldl].
  rewrite !scalar_step_lookup_ne by done.
  unfold scalar_step at 1.
  destruct (re_search RE_TANGGAL_FAKTUR txt) as [m|].
  - by rewrite lookup_insert_eq.
  - rewrite bool_decide_eq_true_2 by done.
    destruct (tanggal_fallback txt); rewrite lookup_insert_eq; [done|].
    unfold dict_get. rewrite scalar_step_lookup_ne by done.
    by simplify_map_eq.
Qed.

(** A month name outside the table leaves the fallback without a value. *)
Lemma tanggal_fallback_unknown_month txt match3 :
  re_search RE_TANGGAL_FALLBACK txt = Some match3 →
  indo_months !! Py.upper (group match3 2) = None →
  tanggal_fallback txt = None.
Proof. intros Hm Hmonth. unfold tanggal_fallback. by rewrite Hm, Hmonth. Qed.

(** Scenario B, second half: no primary match, the fallback rebuilds the
    zero-padded date; an unknown month name gives no date. *)
Example tanggal_fallback_april :
  parse_pdf_fields (str "Jakarta, 1 APRIL 2022") !! "tanggalFaktur"
  = Some (Some (str "01/04/2022")).
Proof. by vm_compute. Qed.

Example tanggal_fallback_unknown :
  parse_pdf_fields (str "Jakarta, 1 APRILIS 2022") !! "tanggalFaktur" = Some None.
Proof. by vm_compute. Qed.

(** The primary pattern takes a date written right after the label or
    after a comma. *)
Example tanggal_primary_comma :
  parse_pdf_fields (str "Jakarta, 01/04/2022") !! "tanggalFaktur"
  = Some (Some (str "01/04/2022")).
Proof. by vm_compute. Qed.

Example tanggal_primary_glued :
  parse_pdf_fields (str "Tanggal Faktur01/04/2022") !! "tanggalFaktur"
  = Some (Some (str "01/04/2022")).
Proof. by vm_compute. Qed.

(** C6. Scenario B, first half, on the code: the pattern of
    [tanggalFaktur] has no separator class between the label and the date,
    unlike the patterns of [nomorFaktur], [jumlahDpp] and [jumlahPpn], so
    the text ["Tanggal Faktur 01/04/2022"] has no primary match; without a
    comma it has no fallback match either, and the date is absent. *)
Theorem tanggal_label_then_space :
  re_search RE_TANGGAL_FAKTUR (preprocess_ocr_text (str "Tanggal Faktur 01/04/2022")) = None
  ∧ parse_pdf_fields (str "Tanggal Faktur 01/04/2022") !! "tanggalFaktur" = Some None
  ∧ parse_pdf_fields (str "Nomor Faktur 070.000-22.12345678") !! "nomorFaktur"
    = Some (Some (str "0700002212345678")).
Proof. by vm_compute. Qed.

(** ** File kinds, as prefixes and suffixes *)

Lemma startswith_prefix s p : Py.startswith s p = true ↔ p `prefix_of` s.
Proof.
  revert s. induction p as [|a p IH]; intros s; simpl.
  - split; [intros _; apply prefix_nil | done].
  - destruct s as [|c s].
    + split; [done | intros H; by apply prefix_nil_inv in H].
    + rewrite andb_true_iff, N.eqb_eq, IH. split.
      * intros [-> H]. by apply prefix_cons.
      * intros H. split; [by apply prefix_cons_inv_1 in H | by apply prefix_cons_inv_2 in H].
Qed.

Lemma endswith_suffix s p : Py.endswith s p = true ↔ p `suffix_of` s.
Proof.
  unfold Py.endswith. rewrite startswith_prefix.
  rewrite prefix_suffix_reverse, !reverse_involutive. done.
Qed.

Lemma lower_app s t : Py.lower (s ++ t) = Py.lower s ++ Py.lower t.
Proof. apply fmap_app. Qed.

(** Two suffixes of one text that end in different characters. *)
Lemma suffix_app_mismatch (s t p : text) :
  last t ≠ None → last p ≠ None → last t ≠ last p → ¬ p `suffix_of` s ++ t.
Proof.
  intros Ht Hp Hne [k Hk]. apply Hne.
  assert (H1 : last (s ++ t) = last t).
  { destruct t as [|c t] using rev_ind; [done|]. by rewrite app_assoc, !last_snoc. }
  assert (H2 : last (k ++ p) = last p).
  { destruct p as [|c p] using rev_ind; [done|]. by rewrite app_assoc, !last_snoc. }
  congruence.
Qed.

(** ** Reference fetcher *)

Lemma mock_record_complete f : f ∈ FIELDS → is_Some (dict_get mock_record f).
Proof.
  intros Hf. unfold FIELDS in Hf.
  repeat (apply elem_of_cons in Hf as [->|Hf]; [by vm_compute; eexists|]).
  by apply elem_of_nil in Hf.
Qed.

(** The mock document parses, and the eight mapped fields of the result
    are those of [mock_record], whatever the identifier. *)
Lemma fetch_djp_data_mock qr :
  ∃ d, fetch_djp_data qr = inr d
       ∧ ∀ f, f ∈ FIELDS → dict_get d f = dict_get mock_record f.
Proof.
  unfold fetch_djp_data.
  destruct (ET.fromstring MOCK_DJP_XML) as [root|] eqn:E;
    [|by vm_compute in E].
  eexists; split; [reflexivity|].
  vm_compute in E. injection E as <-.
  intros f Hf. unfold FIELDS in Hf.
  repeat (apply elem_of_cons in Hf as [->|Hf]; [by vm_compute|]).
  by apply elem_of_nil in Hf.
Qed.

#[global] Arguments fetch_djp_data : simpl never.
#[global] Arguments parse_pdf_fields : simpl never.
#[global] Arguments compare_fields : simpl never.

Lemma compare_fields_elem a b d :
  d ∈ compare_fields a b → ∃ f, f ∈ FIELDS ∧ deviation_rule a b f = Some d.
Proof. rewrite compare_fields_rule. apply list_elem_of_omap. Qed.

Lemma compare_fields_agree a b :
  (∀ f, f ∈ FIELDS → dict_get a f = dict_get b f) → compare_fields a b = [].
Proof.
  intros Hagree. rewrite compare_fields_rule.
  induction FIELDS as [|f fs IH]; simpl; [done|].
  assert (deviation_rule a b f = None) as ->.
  { unfold deviation_rule. rewrite (Hagree f) by left.
    destruct (dict_get b f); [by rewrite decide_True|done]. }
  apply IH. intros f' Hf'. apply Hagree. by right.
Qed.

(** With a reference value present, the rule never reports
    ["missing_in_api"]. *)
Lemma deviation_rule_reference_present a b f d v :
  dict_get b f = Some v →
  deviation_rule a b f = Some d →
  deviation_type d ≠ "missing_in_api"
  ∧ (deviation_type d = "missing_in_pdf" ∨ deviation_type d = "mismatch").
Proof.
  unfold deviation_rule. intros ->.
  destruct (dict_get a f); [case_decide|]; intros [= <-]; simpl;
    (split; [discriminate | auto]).
Qed.

(** ** Validation orchestrator *)

Section orchestrator_properties.

Variable pdf_plumber tesseract : list Byte.byte → option text.
Variable extract_qr_code_from_pdf extract_qr_code_from_image : list Byte.byte → option text.

Abbreviation validate :=
  (validate_efaktur pdf_plumber tesseract
     extract_qr_code_from_pdf extract_qr_code_from_image).

#[local] Opaque fetch_djp_data parse_pdf_fields compare_fields.

(** What a request that returns went through, and what it returns. *)
Lemma validate_efaktur_returns content filename log r :
  run (validate content filename) = (log, inr r) →
  ∃ txt url djp,
    txt ≠ []
    ∧ (is_pdf_file filename = true ∧ pdf_plumber content = Some txt
         ∧ url = extract_qr_code_from_pdf content
         ∧ log = [ExtractTextFromPdf; ParsePdfFields; ExtractQrCodeFromPdf;
                  FetchDjpData; CompareFields]
       ∨ is_pdf_file filename = false ∧ is_image_file filename = true
         ∧ tesseract content = Some txt
         ∧ url = extract_qr_code_from_image content
         ∧ log = [ExtractTextFromImage; ParsePdfFields; ExtractQrCodeFromImage;
                  FetchDjpData; CompareFields])
    ∧ fetch_djp_data url = inr djp
    ∧ validation_results r
      = mkValidationResults (compare_fields (parse_pdf_fields txt) djp) djp
          (parse_pdf_fields txt) txt url
    ∧ status r = (if nonempty (compare_fields (parse_pdf_fields txt) djp)
                  then "validated_with_deviations" else "validated_successfully").
Proof.
  cbv [run validate_efaktur bind call raise ret
       extract_text_from_pdf extract_text_from_image].
  destruct (is_pdf_file filename); [|destruct (is_image_file filename)].
  - destruct (pdf_plumber content) as [[|c txt]|] eqn:Htxt; simpl;
      [intros [=] | | intros [=]].
    destruct (fetch_djp_data (extract_qr_code_from_pdf content)) as [e|djp] eqn:Hdjp;
      [intros [=]|].
    destruct (nonempty _) eqn:Hdev; intros [= <- <-];
      exists (c :: txt), (extract_qr_code_from_pdf content), djp;
      simpl; rewrite ?Hdev; split_and!; auto.
  - destruct (tesseract content) as [[|c txt]|] eqn:Htxt; simpl;
      [intros [=] | | intros [=]].
    destruct (fetch_djp_data (extract_qr_code_from_image content)) as [e|djp] eqn:Hdjp;
      [intros [=]|].
    destruct (nonempty _) eqn:Hdev; intros [= <- <-];
      exists (c :: txt), (extract_qr_code_from_image content), djp;
      simpl; rewrite ?Hdev; split_and!; auto 10.
  - intros [=].
Qed.

(** A PDF with some text runs the whole pipeline and returns. *)
Lemma validate_efaktur_pdf content filename txt djp :
  is_pdf_file filename = true →
  pdf_plumber content = Some txt →
  txt ≠ [] →
  fetch_djp_data (extract_qr_code_from_pdf content) = inr djp →
  run (validate content filename)
  = ([ExtractTextFromPdf; ParsePdfFields; ExtractQrCodeFromPdf;
      FetchDjpData; CompareFields],
     inr (assemble (parse_pdf_fields txt) djp txt (extract_qr_code_from_pdf content))).
Proof.
  intros Hpdf Htxt Hne Hdjp.
  cbv [run validate_efaktur bind call raise ret assemble
       extract_text_from_pdf extract_text_from_image].
  rewrite Hpdf, Htxt. destruct txt as [|c txt]; [exfalso; exact (Hne eq_refl)|]. simpl.
  rewrite Hdjp. by destruct (nonempty _).
Qed.

(** An image with some text does the same through the OCR path. *)
Lemma validate_efaktur_image content filename txt djp :
  is_pdf_file filename = false →
  is_image_file filename = true →
  tesseract content = Some txt →
  txt ≠ [] →
  fetch_djp_data (extract_qr_code_from_image content) = inr djp →
  run (validate content filename)
  = ([ExtractTextFromImage; ParsePdfFields; ExtractQrCodeFromImage;
      FetchDjpData; CompareFields],
     inr (assemble (parse_pdf_fields txt) djp txt (extract_qr_code_from_image content))).
Proof.
  intros Hpdf Himg Htxt Hne Hdjp.
  cbv [run validate_efaktur bind call raise ret assemble
       extract_text_from_pdf extract_text_from_image].
  rewrite Hpdf, Himg, Htxt. destruct txt as [|c txt]; [exfalso; exact (Hne eq_refl)|]. simpl.
  rewrite Hdjp. by destruct (nonempty _).
Qed.

(** C2. Whenever a request returns a result, its status is
    ["validated_successfully"] exactly when its list of deviations is empty;
    the deviations are those of the reconciler on the extracted fields and
    the reference record of the result, so when these agree on all eight
    fields the status is ["validated_successfully"] and the list is empty. *)
Theorem status_iff_no_deviations content filename log r :
  run (validate content filename) = (log, inr r) →
  let res := validation_results r in
  (status r = "validated_successfully" ↔ deviations res = [])
  ∧ deviations res = compare_fields (extracted_data res) (validated_data res)
  ∧ ((∀ f, f ∈ FIELDS →
        dict_get (extracted_data res) f = dict_get (validated_data res) f) →
     status r = "validated_successfully" ∧ deviations res = []).
Proof.
  intros (txt & url & djp & _ & _ & _ & Hres & Hst)%validate_efaktur_returns res.
  unfold res. rewrite Hres, Hst. simpl.
  assert (Hiff : (if nonempty (compare_fields (parse_pdf_fields txt) djp)
                  then "validated_with_deviations" else "validated_successfully")
                 = "validated_successfully"
                 ↔ compare_fields (parse_pdf_fields txt) djp = []).
  { by destruct (compare_fields (parse_pdf_fields txt) djp). }
  split_and!; [done | done |].
  intros Hagree. rewrite Hiff. split; apply compare_fields_agree; exact Hagree.
Qed.

(** C8. A filename whose lowercase form ends in none of [.pdf], [.jpg],
    [.jpeg], [.png] is rejected with an error before any call is made; a
    request whose extraction step fails or yields the empty text ends in an
    error too, without field extraction; an error carries no result. Every
    request that returns has either the status ["validated_successfully"]
    and no deviation, or the status ["validated_with_deviations"] and at
    least one. In particular every [.txt] filename is rejected before any
    call. *)
Theorem validate_efaktur_rejects content filename :
  ((∀ ext, ext ∈ [".pdf"; ".jpg"; ".jpeg"; ".png"] →
      ¬ str ext `suffix_of` Py.lower filename) →
   run (validate content filename)
   = ([], inl (mkHTTPException 400 "Only PDF and JPG/PNG files are supported")))
  ∧ ((extracted_text pdf_plumber tesseract content filename = None
      ∨ extracted_text pdf_plumber tesseract content filename = Some []) →
     ∃ log e, run (validate content filename) = (log, inl e)
              ∧ ParsePdfFields ∉ log ∧ CompareFields ∉ log)
  ∧ (∀ log r, run (validate content filename) = (log, inr r) →
       (status r = "validated_successfully"
        ∧ deviations (validation_results r) = [])
       ∨ (status r = "validated_with_deviations"
          ∧ deviations (validation_results r) ≠ []))
  ∧ (∀ stem, run (validate content (stem ++ str ".txt"))
             = ([], inl (mkHTTPException 400 "Only PDF and JPG/PNG files are supported"))).
Proof.
  assert (Hreject : ∀ name, is_pdf_file name = false → is_image_file name = false →
            run (validate content name)
            = ([], inl (mkHTTPException 400 "Only PDF and JPG/PNG files are supported"))).
  { intros name Hpdf Himg.
    cbv [run validate_efaktur bind call raise ret]. by rewrite Hpdf, Himg. }
  split_and!.
  - intros Hext. apply Hreject.
    + apply not_true_is_false. intros H%endswith_suffix.
      by apply (Hext ".pdf"); [elem_of_literals|].
    + apply not_true_is_false. unfold is_image_file. simpl.
      rewrite !orb_true_iff, !endswith_suffix.
      intros [H|[H|[H|H]]];
        [apply (Hext ".jpg") | apply (Hext ".jpeg") | apply (Hext ".png")
        | discriminate H];
        try exact H; elem_of_literals.
  - unfold extracted_text.
    cbv [run validate_efaktur bind call raise ret
         extract_text_from_pdf extract_text_from_image].
    destruct (is_pdf_file filename); [|destruct (is_image_file filename)].
    + intros [->| ->]; simpl; do 2 eexists; (split; [reflexivity|]);
        split; intros Hin; by repeat (apply elem_of_cons in Hin as [?|Hin]);
        try apply elem_of_nil in Hin.
    + intros [->| ->]; simpl; do 2 eexists; (split; [reflexivity|]);
        split; intros Hin; by repeat (apply elem_of_cons in Hin as [?|Hin]);
        try apply elem_of_nil in Hin.
    + intros _. do 2 eexists. split; [reflexivity|]. split; apply not_elem_of_nil.
  - intros log r (txt & url & djp & _ & _ & _ & Hres & Hst)%validate_efaktur_returns.
    rewrite Hres, Hst. simpl.
    destruct (compare_fields (parse_pdf_fields txt) djp); simpl; [by left|by right].
  - intros stem. apply Hreject.
    + apply not_true_is_false. intros H%endswith_suffix. revert H.
      rewrite lower_app. apply suffix_app_mismatch; by vm_compute.
    + apply not_true_is_false. unfold is_image_file. simpl.
      rewrite !orb_true_iff, !endswith_suffix, lower_app.
      intros [H|[H|[H|H]]]; [| | |discriminate H];
        revert H; apply suffix_app_mismatch; by vm_compute.
Qed.

(** C10. Whatever the identifier, [fetch_djp_data] returns a record in
    which each of the eight fields has a value; hence a deviation of a
    returned result is never of type ["missing_in_api"]: it is of type
    ["missing_in_pdf"] or ["mismatch"]. *)
Theorem no_missing_in_api :
  (∀ qr, ∃ d, fetch_djp_data qr = inr d
              ∧ ∀ f, f ∈ FIELDS → is_Some (dict_get d f))
  ∧ (∀ content filename log r,
       run (validate content filename) = (log, inr r) →
       ∀ d, d ∈ deviations (validation_results r) →
            deviation_type d ≠ "missing_in_api"
            ∧ (deviation_type d = "missing_in_pdf" ∨ deviation_type d = "mismatch")).
Proof.
  assert (Hfull : ∀ qr, ∃ d, fetch_djp_data qr = inr d
                             ∧ ∀ f, f ∈ FIELDS → is_Some (dict_get d f)).
  { intros qr. destruct (fetch_djp_data_mock qr) as (d & Hd & Hmock).
    exists d. split; [done|]. intros f Hf. rewrite Hmock by done.
    by apply mock_record_complete. }
  split; [done|].
  intros content filename log r
    (txt & url & djp & _ & _ & Hdjp & Hres & _)%validate_efaktur_returns d.
  rewrite Hres. simpl. intros (f & Hf & Hrule)%compare_fields_elem.
  destruct (Hfull url) as (djp' & Hdjp' & Hsome).
  assert (djp' = djp) as -> by congruence.
  destruct (Hsome f Hf) as [v Hv].
  exact (deviation_rule_reference_present _ _ _ _ _ Hv Hrule).
Qed.

End orchestrator_properties.

Lemma matching_invoice_agrees d f :
  (∀ f, f ∈ FIELDS → dict_get d f = dict_get mock_record f) →
  f ∈ FIELDS →
  dict_get (parse_pdf_fields matching_invoice) f = dict_get d f.
Proof.
  intros Hd Hf. rewrite Hd by done. unfold FIELDS in Hf.
  repeat (apply elem_of_cons in Hf as [->|Hf]; [by vm_compute|]).
  by apply elem_of_nil in Hf.
Qed.

Lemma status_iff_no_deviations_witness :
  ∃ log r,
    run (validate_efaktur (reads matching_invoice) (reads []) no_qr no_qr
           [] (str "faktur.pdf")) = (log, inr r)
    ∧ status r = "validated_successfully"
    ∧ deviations (validation_results r) = [].
Proof.
  destruct (fetch_djp_data_mock None) as (d & Hd & Hmock).
  assert (Hrun := validate_efaktur_pdf (reads matching_invoice) (reads []) no_qr no_qr
                    [] (str "faktur.pdf") matching_invoice d
                    eq_refl eq_refl ltac:(discriminate) Hd).
  do 2 eexists. split; [exact Hrun|].
  destruct (status_iff_no_deviations _ _ _ _ _ _ _ _ Hrun) as (_ & _ & H).
  apply H. intros f Hf. by apply matching_invoice_agrees.
Defined.

Lemma validate_efaktur_rejects_witness :
  run (validate_efaktur (reads matching_invoice) (reads []) no_qr no_qr
         [] (str "notes.txt"))
  = ([], inl (mkHTTPException 400 "Only PDF and JPG/PNG files are supported"))
  ∧ ∃ log e,
      run (validate_efaktur (reads matching_invoice) (reads []) no_qr no_qr
             [] (str "scan.PNG")) = (log, inl e)
      ∧ ParsePdfFields ∉ log ∧ CompareFields ∉ log.
Proof.
  split.
  - apply (validate_efaktur_rejects (reads matching_invoice) (reads []) no_qr no_qr
             [] (str "notes.txt")).
    intros ext Hext.
    repeat (apply elem_of_cons in Hext as [->|Hext];
            [apply (bool_decide_unpack _); by vm_compute|]).
    by apply elem_of_nil in Hext.
  - apply (validate_efaktur_rejects (reads matching_invoice) (reads []) no_qr no_qr
             [] (str "scan.PNG")).
    right. by vm_compute.
Defined.

Lemma no_missing_in_api_witness :
  ∃ log r,
    run (validate_efaktur (reads scenario_a) (reads []) no_qr no_qr
           [] (str "faktur.pdf")) = (log, inr r)
    ∧ ∀ d, d ∈ deviations (validation_results r) →
           deviation_type d ≠ "missing_in_api"
           ∧ (deviation_type d = "missing_in_pdf" ∨ deviation_type d = "mismatch").
Proof.
  destruct (fetch_djp_data_mock None) as (d & Hd & _).
  assert (Hrun := validate_efaktur_pdf (reads scenario_a) (reads []) no_qr no_qr
                    [] (str "faktur.pdf") scenario_a d
                    eq_refl eq_refl ltac:(discriminate) Hd).
  do 2 eexists. split; [exact Hrun|].
  destruct (no_missing_in_api (reads scenario_a) (reads []) no_qr no_qr) as [_ H].
  exact (H _ _ _ _ Hrun).
Defined.

(** ** Sample reconciliation *)

Lemma compare_fields_spec_witness :
  mkDeviation "npwpPenjual" None (Some (str "012345678012000")) "missing_in_pdf"
    ∈ compare_fields ∅ mock_record
  ∧ mkDeviation "jumlahPpn" (Some (str "1650000")) None "missing_in_api"
    ∈ compare_fields mock_record ∅
  ∧ mkDeviation "namaPembeli" (Some (str "PT XY")) (Some (str "PT XYZ")) "mismatch"
    ∈ compare_fields (<["namaPembeli" := Some (str "PT XY")]> mock_record) mock_record
  ∧ "jumlahDpp" ∉ field <$> compare_fields mock_record mock_record.
Proof.
  split_and!.
  - destruct (compare_fields_spec ∅ mock_record) as (_ & _ & _ & _ & H).
    apply (H "npwpPenjual"). elem_of_literals.
  - destruct (compare_fields_spec mock_record ∅) as (_ & _ & _ & _ & H).
    apply (H "jumlahPpn"). elem_of_literals.
  - destruct (compare_fields_spec (<["namaPembeli" := Some (str "PT XY")]> mock_record)
                mock_record) as (_ & _ & _ & _ & H).
    apply (H "namaPembeli"). elem_of_literals.
  - destruct (compare_fields_spec mock_record mock_record) as (_ & _ & _ & _ & H).
    apply (H "jumlahDpp"). elem_of_literals.
Defined.

(** * Further properties *)

(** ** Matcher: what a match and its groups hold *)

Lemma rep_match_lang {R} cls lo hi (k : text → option R) n s res :
  rep_match cls lo hi k n s = Some res →
  ∃ p s', s = p ++ s' ∧ k s' = Some res
          ∧ Forall (λ c, cls c = true) p
          ∧ (lo ≤ n + length p)%nat
          ∧ (p = [] ∨ from_option (λ h, n + length p ≤ h)%nat True hi).
Proof.
  revert n. induction s as [|c s IH]; intros n; simpl.
  - destruct (lo <=? n)%nat eqn:Hlo; [|done]. apply Nat.leb_le in Hlo.
    intros Hk. exists [], []. simpl. split_and!; [done|done|constructor|lia|by left].
  - assert (Hstop : (if (lo <=? n)%nat then k (c :: s) else None) = Some res →
              ∃ p s', c :: s = p ++ s' ∧ k s' = Some res
                      ∧ Forall (λ c, cls c = true) p
                      ∧ (lo ≤ n + length p)%nat
                      ∧ (p = [] ∨ from_option (λ h, n + length p ≤ h)%nat True hi)).
    { destruct (lo <=? n)%nat eqn:Hlo; [|done]. apply Nat.leb_le in Hlo.
      intros Hk. exists [], (c :: s). simpl.
      split_and!; [done|done|constructor|lia|by left]. }
    destruct (cls c) eqn:Hc; [|done]. simpl.
    destruct (from_option (λ h : nat, (n <? h)%nat) true hi) eqn:Hhi; [|done].
    destruct (rep_match cls lo hi k (S n) s) as [res'|] eqn:Hrec; [|done].
    intros [= ->]. destruct (IH _ Hrec) as (p & s' & -> & Hk & Hp & Hlen & Hmax).
    exists (c :: p), s'. simpl. split_and!; [done|done|by constructor|lia|].
    right. destruct hi as [h|]; simpl in *; [|done].
    apply Nat.ltb_lt in Hhi. destruct Hmax as [->|Hmax]; simpl; lia.
Qed.

Lemma rmatch_lang {R} r s caps (k : text → gmap nat text → option R) res :
  rmatch r s caps k = Some res →
  ∃ p s' caps',
    s = p ++ s' ∧ k s' caps' = Some res ∧ lang r p
    ∧ ∀ i v, caps' !! i = Some v → caps !! i = Some v ∨ grp_lang i r v.
Proof.
  revert s caps k res.
  induction r as [|cls|cls lo hi|a IHa b IHb|a IHa b IHb|j a IHa];
    intros s caps k res; simpl.
  - intros Hk. exists [], s, caps. split_and!; auto.
  - destruct s as [|c s]; [done|]. destruct (cls c) eqn:Hc; [|done].
    intros Hk. exists [c], s, caps. split_and!; [done|done|by exists c|auto].
  - intros (p & s' & -> & Hk & Hp & Hlo & Hhi)%rep_match_lang.
    exists p, s', caps. split; [done|]. split; [done|]. split; [|auto].
    simpl in Hlo, Hhi. split; [done|]. split; [lia|].
    destruct hi as [h|]; simpl in *; [|done].
    destruct Hhi as [->|Hhi]; simpl; lia.
  - intros (p1 & s1 & caps1 & -> & Hb & Hl1 & Hcaps1)%IHa.
    apply IHb in Hb as (p2 & s2 & caps2 & -> & Hk & Hl2 & Hcaps2).
    exists (p1 ++ p2), s2, caps2. rewrite <- app_assoc.
    split_and!; [done|done|by exists p1, p2|].
    intros i v [Hv|Hv]%Hcaps2; [|by right; right].
    apply Hcaps1 in Hv as [Hv|Hv]; [by left|by right; left].
  - destruct (rmatch a s caps k) as [res'|] eqn:Ha.
    + intros [= ->]. apply IHa in Ha as (p & s' & caps' & -> & Hk & Hl & Hcaps).
      exists p, s', caps'. split_and!; [done|done|by left|].
      intros i v [Hv|Hv]%Hcaps; [by left|by right; left].
    + intros (p & s' & caps' & -> & Hk & Hl & Hcaps)%IHb.
      exists p, s', caps'. split_and!; [done|done|by right|].
      intros i v [Hv|Hv]%Hcaps; [by left|by right; right].
  - intros (p & s' & caps' & -> & Hk & Hl & Hcaps)%IHa.
    eexists p, s', _. split_and!; [done|exact Hk|done|].
    intros i v. destruct (decide (j = i)) as [->|Hne].
    + rewrite lookup_insert_eq. intros [= <-]. right. left. split; [done|].
      rewrite length_app, Nat.add_sub. by rewrite take_app_length.
    + rewrite lookup_insert_ne by done.
      intros [Hv|Hv]%Hcaps; [by left|by right; right].
Qed.

(** A match spans a text of the language of the pattern inside the subject,
    and each group holds a text of the language of its body. *)
Lemma match_here_lang r pos s m :
  match_here r pos s = Some m →
  ∃ p s', s = p ++ s' ∧ lang r p
          ∧ m_start m = pos ∧ m_end m = (pos + length p)%nat
          ∧ ∀ i v, m_groups m !! i = Some v → grp_lang i r v.
Proof.
  unfold match_here.
  intros (p & s' & caps' & -> & [= <-] & Hl & Hcaps)%rmatch_lang. simpl.
  exists p, s'. rewrite length_app, Nat.add_sub. split_and!; try done.
  intros i v [Hv|Hv]%Hcaps; [by rewrite lookup_empty in Hv|done].
Qed.

Lemma search_at_lang r pos s m :
  search_at r pos s = Some m →
  ∃ q p s', s = q ++ p ++ s' ∧ lang r p
            ∧ m_start m = (pos + length q)%nat
            ∧ m_end m = (pos + length q + length p)%nat
            ∧ ∀ i v, m_groups m !! i = Some v → grp_lang i r v.
Proof.
  revert pos. induction s as [|c s IH]; intros pos; simpl.
  - destruct (match_here r pos []) as [m'|] eqn:Hm; [|done].
    intros [= ->]. apply match_here_lang in Hm as (p & s' & E & ? & ? & ? & ?).
    exists [], p, s'. simpl. rewrite Nat.add_0_r. split_and!; done.
  - destruct (match_here r pos (c :: s)) as [m'|] eqn:Hm.
    + intros [= ->]. apply match_here_lang in Hm as (p & s' & E & ? & ? & ? & ?).
      exists [], p, s'. simpl. rewrite Nat.add_0_r. split_and!; done.
    + intros (q & p & s' & -> & ? & Hs & He & ?)%IH.
      exists (c :: q), p, s'. simpl. split_and!; [done|done|lia|lia|done].
Qed.

Lemma finditer_at_lang r pos skip s m :
  m ∈ finditer_at r pos skip s →
  ∀ i v, m_groups m !! i = Some v → grp_lang i r v.
Proof.
  revert pos skip. induction s as [|c s IH]; intros pos skip; simpl.
  - destruct skip; [|by intros ?%elem_of_nil].
    destruct (match_here r pos []) as [m'|] eqn:Hm; [|by intros ?%elem_of_nil].
    intros ->%list_elem_of_singleton.
    by apply match_here_lang in Hm as (p & s' & _ & _ & _ & _ & ?).
  - destruct skip; [|apply IH].
    destruct (match_here r pos (c :: s)) as [m'|] eqn:Hm; [|apply IH].
    intros [->|Hin]%elem_of_cons; [|by eapply IH].
    by apply match_here_lang in Hm as (p & s' & _ & _ & _ & _ & ?).
Qed.

(** ** Reconciler, further properties *)

Lemma deviation_rule_None a b f :
  deviation_rule a b f = None ↔ dict_get a f = dict_get b f.
Proof.
  unfold deviation_rule.
  destruct (dict_get a f) as [p|], (dict_get b f) as [r|]; try case_decide;
    split; intros Hx; simplify_eq; done.
Qed.

Lemma deviation_rule_fields_filter a b (fs : list string) :
  field <$> omap (deviation_rule a b) fs
  = filter (λ f, dict_get a f ≠ dict_get b f) fs.
Proof.
  induction fs as [|g fs IH]; [done|]. simpl.
  destruct (deviation_rule a b g) as [d|] eqn:Hd.
  - rewrite filter_cons_True; [|intros E%deviation_rule_None; congruence].
    csimpl. by rewrite IH, (deviation_rule_field _ _ _ _ Hd).
  - rewrite filter_cons_False; [done|].
    intros Hne'. by apply Hne', deviation_rule_None.
Qed.

(** X1. The fields that [compare_fields] reports are exactly the fields of
    the fixed list on which the two mappings differ, in the order of the
    list; their number is the number of deviations. *)
Theorem compare_fields_reports_differences (a b : Dict) :
  field <$> compare_fields a b
  = filter (λ f, dict_get a f ≠ dict_get b f) FIELDS
  ∧ length (compare_fields a b)
    = length (filter (λ f, dict_get a f ≠ dict_get b f) FIELDS).
Proof.
  assert (H : field <$> compare_fields a b
              = filter (λ f, dict_get a f ≠ dict_get b f) FIELDS).
  { rewrite compare_fields_rule. apply deviation_rule_fields_filter. }
  split; [done|]. by rewrite <- H, length_fmap.
Qed.

(** X2. Each deviation is about one of the eight fields, carries the two
    values that the mappings give for that field, which differ, and is
    typed by which of them is absent. *)
Theorem compare_fields_deviation_sound (a b : Dict) (d : Deviation) :
  d ∈ compare_fields a b →
  field d ∈ FIELDS
  ∧ pdf_value d = dict_get a (field d)
  ∧ djp_api_value d = dict_get b (field d)
  ∧ pdf_value d ≠ djp_api_value d
  ∧ deviation_type d =
      match pdf_value d, djp_api_value d with
      | None, _ => "missing_in_pdf"
      | Some _, None => "missing_in_api"
      | Some _, Some _ => "mismatch"
      end.
Proof.
  intros (f & Hf & Hrule)%compare_fields_elem.
  unfold deviation_rule in Hrule.
  destruct (dict_get a f) as [p|] eqn:Ha, (dict_get b f) as [r|] eqn:Hb;
    try case_decide; simplify_eq; simpl; rewrite ?Ha, ?Hb;
    split_and!; try done; congruence.
Qed.

Lemma compare_fields_deviation_sound_witness :
  compare_fields (<["jumlahPpn" := None]> mock_record) mock_record
  = [mkDeviation "jumlahPpn" None (Some (str "1650000")) "missing_in_pdf"]
  ∧ "jumlahPpn" ∈ FIELDS
  ∧ (None : option text) ≠ Some (str "1650000").
Proof.
  assert (E : compare_fields (<["jumlahPpn" := None]> mock_record) mock_record
              = [mkDeviation "jumlahPpn" None (Some (str "1650000")) "missing_in_pdf"])
    by (by vm_compute).
  split; [exact E|].
  destruct (compare_fields_deviation_sound
              (<["jumlahPpn" := None]> mock_record) mock_record
              (mkDeviation "jumlahPpn" None (Some (str "1650000")) "missing_in_pdf"))
    as (H1 & _ & _ & H2 & _).
  - rewrite E. by left.
  - split; [exact H1|exact H2].
Defined.

(** X3. Only the eight fields are read, and a key bound to [None] counts as
    a missing key: mappings that give the same values on the eight fields
    give the same deviations. *)
Theorem compare_fields_reads_fields_only (a a' b b' : Dict) :
  (∀ f, f ∈ FIELDS → dict_get a f = dict_get a' f ∧ dict_get b f = dict_get b' f) →
  compare_fields a b = compare_fields a' b'.
Proof.
  intros Hsame. rewrite !compare_fields_rule.
  apply list_omap_ext, Forall2_same_length_lookup. split; [done|].
  intros i f f' Hf Hf'. simplify_eq.
  unfold deviation_rule.
  by destruct (Hsame f) as [-> ->]; [by eapply list_elem_of_lookup_2|].
Qed.

Lemma compare_fields_reads_fields_only_witness :
  compare_fields (<["alamatPenjual" := Some (str "Jalan Kuda Laut")]> mock_record)
    (<["statusFaktur" := None]> mock_record)
  = compare_fields mock_record mock_record.
Proof.
  apply compare_fields_reads_fields_only. intros f Hf. unfold FIELDS in Hf.
  repeat (apply elem_of_cons in Hf as [->|Hf]; [by vm_compute|]).
  by apply elem_of_nil in Hf.
Defined.

Lemma filter_none {A} (P : A → Prop) `{∀ x, Decision (P x)} (l : list A) :
  (∀ y, y ∈ l → ¬ P y) → filter P l = [].
Proof.
  induction l as [|y l IH]; intros Hl; [done|].
  rewrite filter_cons_False by (apply Hl; by left).
  apply IH. intros z Hz. apply Hl. by right.
Qed.

Lemma filter_singleton `{EqDecision A} (P : A → Prop) `{∀ x, Decision (P x)}
    (l : list A) x :
  NoDup l → x ∈ l → P x → (∀ y, y ∈ l → y ≠ x → ¬ P y) → filter P l = [x].
Proof.
  intros Hnd Hx HP Hothers.
  induction l as [|y l IH]; [by apply elem_of_nil in Hx|].
  apply NoDup_cons in Hnd as [Hy Hnd].
  destruct (decide (y = x)) as [->|Hne].
  - rewrite filter_cons_True by done. f_equal.
    apply filter_none. intros z Hz.
    apply Hothers; [by right|]. intros ->. done.
  - rewrite filter_cons_False by (apply Hothers; [by left|done]).
    apply IH; [done| |].
    + apply elem_of_cons in Hx as [->|Hx]; done.
    + intros z Hz. apply Hothers. by right.
Qed.

(** X4. Two mappings that differ on a single one of the eight fields give
    exactly one deviation, and it is about that field. *)
Theorem compare_fields_single_difference (a b : Dict) (f : string) :
  f ∈ FIELDS →
  dict_get a f ≠ dict_get b f →
  (∀ g, g ∈ FIELDS → g ≠ f → dict_get a g = dict_get b g) →
  ∃ d, compare_fields a b = [d] ∧ field d = f
       ∧ pdf_value d = dict_get a f ∧ djp_api_value d = dict_get b f.
Proof.
  intros Hf Hne Hothers.
  assert (Hfields : field <$> compare_fields a b = [f]).
  { rewrite compare_fields_rule, deviation_rule_fields_filter.
    apply filter_singleton; [apply NoDup_FIELDS|done|done|].
    intros g Hg Hgf Hdiff. by apply Hdiff, Hothers. }
  destruct (compare_fields a b) as [|d [|d' l]] eqn:Hcmp; [done| |done].
  injection Hfields as Hd. exists d. split; [done|]. split; [done|].
  assert (Hin : d ∈ compare_fields a b) by (rewrite Hcmp; by left).
  apply compare_fields_elem in Hin as (g & _ & Hrule).
  pose proof (deviation_rule_field _ _ _ _ Hrule) as Hg.
  rewrite Hd in Hg. subst g. revert Hrule. unfold deviation_rule.
  destruct (dict_get a f), (dict_get b f); try case_decide;
    intros [= <-]; done.
Qed.

Lemma compare_fields_single_difference_witness :
  ∃ d, compare_fields (<["jumlahPpn" := None]> mock_record) mock_record = [d]
       ∧ field d = "jumlahPpn" ∧ pdf_value d = None
       ∧ djp_api_value d = Some (str "1650000").
Proof.
  destruct (compare_fields_single_difference
              (<["jumlahPpn" := None]> mock_record) mock_record "jumlahPpn")
    as (d & H1 & H2 & H3 & H4).
  - elem_of_literals.
  - by vm_compute.
  - intros g Hg Hne. unfold FIELDS in Hg.
    repeat (apply elem_of_cons in Hg as [->|Hg];
            [first [by destruct Hne | by vm_compute]|]).
    by apply elem_of_nil in Hg.
  - exists d. split_and!; [done|done| |].
    + rewrite H3. by vm_compute.
    + rewrite H4. by vm_compute.
Defined.

(** ** Text normalizer, further properties *)

Lemma replace_Forall (Q : N → Prop) A B s :
  A ≠ [] → Forall Q B → Forall Q s → Forall Q (Py.replace A B s).
Proof. intros HA HB Hs. rewrite replace_is_go by done. by apply replace_go_Forall. Qed.

(** X5. Whatever the input, the normalized text is pure ASCII, holds no
    tab and no carriage return, and never has two spaces in a row. *)
Theorem preprocess_output_clean (text0 : text) :
  Forall (λ c, c < 128 ∧ c ≠ 9 ∧ c ≠ 13) (preprocess_ocr_text text0)
  ∧ occurs (str "  ") (preprocess_ocr_text text0) = false.
Proof.
  split.
  - apply Forall_and. split.
    + eapply Forall_impl; [apply preprocess_ascii|].
      intros c Hc. by apply N.ltb_lt.
    + unfold preprocess_ocr_text, Re.sub_runs.
      apply sub_runs_go_Forall; [by repeat constructor|].
      apply sub_runs_go_Forall; [by repeat constructor|].
      repeat (apply replace_Forall; [done|by repeat constructor|]).
      apply Forall_and. split.
      * eapply Forall_impl; [apply (sub_runs_go_class is_blank 32)|].
        intros c Hc ->. by specialize (Hc eq_refl).
      * apply sub_runs_go_Forall; [by repeat constructor|].
        eapply Forall_impl; [apply (sub_runs_go_class is_crlf 10)|].
        intros c Hc ->. by specialize (Hc eq_refl).
  - unfold preprocess_ocr_text, Re.sub_runs.
    by apply (sub_runs_go_no_pair is_sp 32).
Qed.

(** X6. The fixed points of the normalizer are exactly the ASCII texts
    that hold none of the fragments it rewrites: the five misreadings, the
    tab, the carriage return, two spaces in a row, two newlines in a row. *)
Theorem preprocess_fixed_points (u : text) :
  preprocess_ocr_text u = u ↔ ascii_text u ∧ free_of fragments u.
Proof.
  split.
  - intros Hu.
    assert (Hascii : ascii_text u) by (rewrite <- Hu; apply preprocess_ascii).
    split; [done|]. rewrite <- Hu. by apply preprocess_free.
  - intros [Hascii Hfree]. by apply preprocess_fixed.
Qed.

(** X7. On an ASCII input the normalized text holds none of the five
    misreadings that the normalizer corrects, and no empty line. *)
Theorem preprocess_removes_misreadings (text0 : text) :
  ascii_text text0 →
  Forall (λ X, occurs (str X) (preprocess_ocr_text text0) = false)
    ["Sen Faktur"; "NPWP |"; "NPWP :"; "NIKPaspor"; "Palak"]
  ∧ occurs [10; 10] (preprocess_ocr_text text0) = false.
Proof.
  intros Hfree%preprocess_free.
  split; [repeat constructor|];
    apply (free_of_elem _ _ _ Hfree); elem_of_literals.
Qed.

Lemma preprocess_removes_misreadings_witness :
  occurs (str "Palak") (str "Faktur Palak") = true
  ∧ occurs (str "Palak") (preprocess_ocr_text (str "Faktur Palak")) = false.
Proof.
  split; [by vm_compute|].
  destruct (preprocess_removes_misreadings (str "Faktur Palak")) as [H _].
  - apply (bool_decide_unpack _). by vm_compute.
  - rewrite Forall_forall in H. apply (H "Palak"). elem_of_literals.
Defined.

(** X8. The extractor normalizes its input itself: on an ASCII text,
    normalizing beforehand does not change the extracted fields. *)
Theorem parse_pdf_fields_normalized (text0 : text) :
  ascii_text text0 →
  parse_pdf_fields (preprocess_ocr_text text0) = parse_pdf_fields text0.
Proof.
  intros Hascii. unfold parse_pdf_fields.
  rewrite (preprocess_fixed (preprocess_ocr_text text0));
    [done|apply preprocess_ascii|by apply preprocess_free].
Qed.

Lemma parse_pdf_fields_normalized_witness :
  parse_pdf_fields (preprocess_ocr_text (str "NPWP |  01.234  Palak"))
  = parse_pdf_fields (str "NPWP |  01.234  Palak").
Proof.
  apply parse_pdf_fields_normalized. apply (bool_decide_unpack _). by vm_compute.
Defined.

(** ** Field extractor, further properties *)

Lemma grp_lang_bodies i r v :
  grp_lang i r v → Exists (λ a, lang a v) (grp_bodies i r).
Proof.
  induction r as [|cls|cls lo hi|a IHa b IHb|a IHa b IHb|j a IHa]; simpl;
    try done.
  - intros [H|H]; apply Exists_app; auto.
  - intros [H|H]; apply Exists_app; auto.
  - intros [[-> H]|H]; apply Exists_app; [left|right; auto].
    rewrite decide_True by done. by constructor.
Qed.

(** What a group read by the extractor holds, for a pattern with a single
    group of that number which every match goes through. *)
Lemma search_group r s m i a :
  re_search r s = Some m →
  grp_bodies i r = [a] → sets_group i r = true →
  lang a (group m i).
Proof.
  intros Hm Hbody Hsets. unfold group.
  destruct (search_at_inv _ _ _ _ Hm) as (_ & _ & Hsome).
  destruct (Hsome i Hsets) as [v Hv]. rewrite Hv. simpl.
  apply search_at_lang in Hm as (_ & _ & _ & _ & _ & _ & _ & Hgrp).
  apply Hgrp, grp_lang_bodies in Hv. rewrite Hbody in Hv.
  by apply Exists_cons in Hv as [Hv|Hv%Exists_nil].
Qed.

Lemma finditer_group r s m i a :
  m ∈ re_finditer r s →
  grp_bodies i r = [a] → sets_group i r = true →
  lang a (group m i).
Proof.
  intros Hm Hbody Hsets. unfold group.
  destruct (finditer_at_inv _ _ _ _ _ Hm) as (_ & Hsome).
  destruct (Hsome i Hsets) as [v Hv]. rewrite Hv. simpl.
  eapply finditer_at_lang, grp_lang_bodies in Hv; [|exact Hm].
  rewrite Hbody in Hv.
  by apply Exists_cons in Hv as [Hv|Hv%Exists_nil].
Qed.

Lemma lang_seq_cons a rs p :
  lang (seq (a :: rs)) p ↔ ∃ p1 p2, p = p1 ++ p2 ∧ lang a p1 ∧ lang (seq rs) p2.
Proof. done. Qed.

Lemma lang_seq_nil p : lang (seq []) p ↔ p = [].
Proof. done. Qed.

Lemma lang_rep cls lo hi p :
  lang (Rep cls lo hi) p ↔
    Forall (λ c, cls c = true) p ∧ (lo ≤ length p)%nat
    ∧ from_option (λ h, length p ≤ h)%nat True hi.
Proof. done. Qed.

(** *** Character-level facts *)

Lemma sub_chars_erase (Q : N → Prop) cls s :
  Forall Q s → Forall (λ c, Q c ∧ cls c = false) (Re.sub_chars cls [] s).
Proof.
  unfold Re.sub_chars. induction 1 as [|c s Hc Hs IH]; simpl; [constructor|].
  destruct (cls c) eqn:E; simpl; [done|]. by constructor.
Qed.

Lemma sub_chars_keeps cls s c :
  c ∈ s → cls c = false → c ∈ Re.sub_chars cls [] s.
Proof.
  unfold Re.sub_chars. intros Hc Hcls.
  apply list_elem_of_In, in_flat_map. exists c.
  split; [by apply list_elem_of_In|]. rewrite Hcls. by left.
Qed.

Lemma sub_chars_digits s : digits (Re.sub_chars is_non_digit [] s).
Proof.
  eapply Forall_impl; [apply (sub_chars_erase (λ _, True)), Forall_true; done|].
  intros c [_ Hc]. unfold is_non_digit in Hc. by apply negb_false_iff in Hc.
Qed.

Lemma lstrip_suffix s : Py.lstrip s `suffix_of` s.
Proof.
  induction s as [|c s IH]; simpl; [done|].
  destruct (Py.is_space c); [by apply suffix_cons_r|done].
Qed.

Lemma lstrip_head s c : head (Py.lstrip s) = Some c → Py.is_space c = false.
Proof.
  induction s as [|c' s IH]; simpl; [done|].
  destruct (Py.is_space c') eqn:E; [done|]. simpl. by intros [= <-].
Qed.

Lemma lstrip_keeps s c : c ∈ s → Py.is_space c = false → c ∈ Py.lstrip s.
Proof.
  intros Hc Hsp. induction s as [|c' s IH]; simpl; [done|].
  destruct (Py.is_space c') eqn:E; [|done].
  apply elem_of_cons in Hc as [->|Hc]; [congruence|auto].
Qed.

Lemma lstrip_id s :
  (∀ c, head s = Some c → Py.is_space c = false) → Py.lstrip s = s.
Proof. destruct s as [|c s]; simpl; [done|]. intros H. by rewrite (H c). Qed.

Lemma rstrip_prefix s : Py.rstrip s `prefix_of` s.
Proof.
  unfold Py.rstrip. apply prefix_suffix_reverse.
  rewrite reverse_involutive. apply lstrip_suffix.
Qed.

Lemma rstrip_last s c : last (Py.rstrip s) = Some c → Py.is_space c = false.
Proof.
  unfold Py.rstrip. rewrite last_reverse. apply lstrip_head.
Qed.

Lemma rstrip_keeps s c : c ∈ s → Py.is_space c = false → c ∈ Py.rstrip s.
Proof.
  unfold Py.rstrip. intros Hc Hsp. apply elem_of_reverse, lstrip_keeps; [|done].
  by apply elem_of_reverse.
Qed.

Lemma rstrip_id s :
  (∀ c, last s = Some c → Py.is_space c = false) → Py.rstrip s = s.
Proof.
  intros H. unfold Py.rstrip. rewrite lstrip_id; [apply reverse_involutive|].
  intros c Hc. apply H. by rewrite <- head_reverse.
Qed.

Lemma strip_Forall (Q : N → Prop) s : Forall Q s → Forall Q (Py.strip s).
Proof.
  intros Hs. unfold Py.strip.
  destruct (rstrip_prefix (Py.lstrip s)) as [k1 E1].
  destruct (lstrip_suffix s) as [k2 E2].
  rewrite E2, E1 in Hs. by apply Forall_app in Hs as [_ [Hs _]%Forall_app].
Qed.

Lemma strip_keeps s c : c ∈ s → Py.is_space c = false → c ∈ Py.strip s.
Proof.
  intros Hc Hsp. unfold Py.strip. apply rstrip_keeps; [|done].
  by apply lstrip_keeps.
Qed.

(** A stripped text neither starts nor ends with whitespace. *)
Lemma strip_ends s c :
  head (Py.strip s) = Some c ∨ last (Py.strip s) = Some c → Py.is_space c = false.
Proof.
  unfold Py.strip. intros [Hc|Hc]; [|by eapply rstrip_last].
  apply (lstrip_head s).
  destruct (rstrip_prefix (Py.lstrip s)) as [k E].
  destruct (Py.rstrip (Py.lstrip s)) as [|c' t]; [done|].
  simpl in Hc. injection Hc as ->. by rewrite E.
Qed.

Lemma strip_id s :
  (∀ c, head s = Some c ∨ last s = Some c → Py.is_space c = false) →
  Py.strip s = s.
Proof.
  intros H. unfold Py.strip.
  rewrite lstrip_id by (intros c Hc; apply H; by left).
  apply rstrip_id. intros c Hc. apply H. by right.
Qed.

Lemma parse_pdf_fields_nomor text0 :
  parse_pdf_fields text0 !! "nomorFaktur" =
    Some match re_search RE_NOMOR_FAKTUR (preprocess_ocr_text text0) with
         | Some m => Some (Re.sub_chars is_non_digit [] (Py.strip (group m 1)))
         | None => None
         end.
Proof.
  unfold parse_pdf_fields, patterns. cbn [foldl].
  do 3 rewrite scalar_step_lookup_ne by done.
  unfold scalar_step.
  destruct (re_search RE_NOMOR_FAKTUR _) as [m|].
  - rewrite lookup_insert_eq.
    rewrite (bool_decide_eq_true_2 (_ = "nomorFaktur")) by done.
    by rewrite (bool_decide_eq_false_2 (_ ∈ _)) by elem_of_literals.
  - rewrite (bool_decide_eq_false_2 (_ = "tanggalFaktur")) by done.
    rewrite lookup_insert_eq. unfold dict_get. by simplify_map_eq.
Qed.

Lemma parse_pdf_fields_jumlah text0 k p :
  (k, p) ∈ [("jumlahDpp", RE_JUMLAH_DPP); ("jumlahPpn", RE_JUMLAH_PPN)] →
  parse_pdf_fields text0 !! k =
    Some match re_search p (preprocess_ocr_text text0) with
         | Some m => Some (Re.sub_chars cls_space_dot_comma [] (Py.strip (group m 1)))
         | None => None
         end.
Proof.
  intros [[= -> ->]|[[= -> ->]|[]%elem_of_nil]%elem_of_cons]%elem_of_cons;
    unfold parse_pdf_fields, patterns; cbn [foldl];
    rewrite ?scalar_step_lookup_ne by done;
    unfold scalar_step at 1;
    (destruct (re_search _ _) as [m|];
     [ rewrite lookup_insert_eq;
       rewrite (bool_decide_eq_false_2 (_ = "nomorFaktur")) by done;
       by rewrite (bool_decide_eq_true_2 (_ ∈ _)) by elem_of_literals
     | rewrite (bool_decide_eq_false_2 (_ = "tanggalFaktur")) by done;
       rewrite lookup_insert_eq; unfold dict_get;
       rewrite ?scalar_step_lookup_ne by done; by simplify_map_eq ]).
Qed.

Lemma extract_npwp_digits s v : extract_npwp s = Some v → digits v.
Proof.
  unfold extract_npwp. destruct (re_search RE_NPWP s); [|done].
  intros [= <-]. apply sub_chars_digits.
Qed.

Lemma extract_in_Some extract s v :
  extract_in extract s = Some v → extract s = Some v.
Proof. unfold extract_in. by destruct (nonempty s). Qed.

Lemma truthy_Some v w : Py.truthy v = true → v = Some w → w ≠ [].
Proof. intros H ->. by destruct w. Qed.

Lemma is_digit_not_space c : Py.is_digit c = true → Py.is_space c = false.
Proof.
  unfold Py.is_digit, Py.is_space.
  rewrite andb_true_iff, !N.leb_le. intros [? ?].
  apply orb_false_iff. split; apply andb_false_iff.
  - right. apply N.leb_gt. lia.
  - right. apply N.leb_gt. lia.
Qed.

Lemma amount_digit c :
  cls_amount c = true → cls_space_dot_comma c = false → Py.is_digit c = true.
Proof.
  unfold cls_amount, cls_space_dot_comma.
  intros [H|H]%orb_true_iff [_ H']%orb_false_iff; congruence.
Qed.

(** X9. The number fields hold digits only: whenever [npwpPenjual],
    [npwpPembeli], [nomorFaktur], [jumlahDpp] or [jumlahPpn] has a value,
    each of its characters is a decimal digit, and a [nomorFaktur] is never
    the empty string. *)
Theorem number_fields_digits (text0 : text) (k : string) (v : text) :
  k ∈ ["npwpPenjual"; "npwpPembeli"; "nomorFaktur"; "jumlahDpp"; "jumlahPpn"] →
  parse_pdf_fields text0 !! k = Some (Some v) →
  digits v ∧ (k = "nomorFaktur" → v ≠ []).
Proof.
  intros Hk.
  repeat (apply elem_of_cons in Hk as [->|Hk]); [| | | | |by apply elem_of_nil in Hk].
  - rewrite parse_pdf_fields_party by elem_of_literals. simpl.
    unfold npwp_penjual. intros [= Hv]. split; [|done].
    destruct (negb _); [by eapply extract_npwp_digits|].
    by eapply extract_npwp_digits, extract_in_Some.
  - rewrite parse_pdf_fields_party by elem_of_literals. simpl.
    unfold npwp_pembeli. intros [= Hv]. split; [|done].
    destruct (negb _); [|by eapply extract_npwp_digits, extract_in_Some].
    case_bool_decide; [|done].
    destruct (re_finditer RE_NPWP _ !! 1%nat); [|done].
    injection Hv as <-. apply sub_chars_digits.
  - rewrite parse_pdf_fields_nomor.
    destruct (re_search RE_NOMOR_FAKTUR _) as [m|] eqn:Hm; [|done].
    intros [= <-]. split; [apply sub_chars_digits|]. intros _.
    pose proof (search_group _ _ _ 1%nat _ Hm eq_refl eq_refl) as Hg.
    apply lang_seq_cons in Hg as (p1 & p2 & -> & _ & Hg).
    apply lang_seq_cons in Hg as (p2' & p3 & -> & _ & Hg).
    apply lang_seq_cons in Hg as (p3' & p4 & -> & Hd & _).
    apply lang_rep in Hd as (Hd & Hlen & _).
    destruct p3' as [|c p3']; [simpl in Hlen; lia|].
    apply Forall_cons in Hd as [Hc _].
    assert (Hin : c ∈ Re.sub_chars is_non_digit []
                        (Py.strip (p1 ++ p2' ++ (c :: p3') ++ p4))).
    { apply sub_chars_keeps.
      - apply strip_keeps; [|by apply is_digit_not_space].
        rewrite !elem_of_app. right. right. left. by left.
      - unfold is_non_digit. by rewrite Hc. }
    intros E. rewrite E in Hin. by apply elem_of_nil in Hin.
  - rewrite (parse_pdf_fields_jumlah _ _ RE_JUMLAH_DPP) by (by left).
    destruct (re_search RE_JUMLAH_DPP _) as [m|] eqn:Hm; [|done].
    intros [= <-]. split; [|done].
    pose proof (search_group _ _ _ 1%nat _ Hm eq_refl eq_refl) as Hg.
    apply lang_rep in Hg as (Hg & _).
    eapply Forall_impl; [apply sub_chars_erase, strip_Forall, Hg|].
    intros c [? ?]. by apply amount_digit.
  - rewrite (parse_pdf_fields_jumlah _ _ RE_JUMLAH_PPN) by (right; by left).
    destruct (re_search RE_JUMLAH_PPN _) as [m|] eqn:Hm; [|done].
    intros [= <-]. split; [|done].
    pose proof (search_group _ _ _ 1%nat _ Hm eq_refl eq_refl) as Hg.
    apply lang_rep in Hg as (Hg & _).
    eapply Forall_impl; [apply sub_chars_erase, strip_Forall, Hg|].
    intros c [? ?]. by apply amount_digit.
Qed.

Lemma number_fields_digits_witness :
  parse_pdf_fields (str "Nomor Faktur: 070.000-22.12345678")  !! "nomorFaktur"
  = Some (Some (str "0700002212345678"))
  ∧ digits (str "0700002212345678") ∧ str "0700002212345678" ≠ [].
Proof.
  assert (H : parse_pdf_fields (str "Nomor Faktur: 070.000-22.12345678") !! "nomorFaktur"
              = Some (Some (str "0700002212345678"))) by (by vm_compute).
  split; [done|].
  destruct (number_fields_digits _ "nomorFaktur" _ ltac:(elem_of_literals) H)
    as [Hd Hne].
  split; [exact Hd|by apply Hne].
Defined.

Lemma extract_nama_shape s v :
  extract_nama s = Some v →
  Forall (λ c, cls_nama c = true) v
  ∧ ∀ c, head v = Some c ∨ last v = Some c → Py.is_space c = false.
Proof.
  unfold extract_nama. destruct (re_search RE_NAMA s) as [m|] eqn:Hm; [|done].
  intros [= <-]. split; [|apply strip_ends].
  pose proof (search_group _ _ _ 1%nat _ Hm eq_refl eq_refl) as Hg.
  apply lang_rep in Hg as (Hg & _). by apply strip_Forall.
Qed.

(** X10. A name field that has a value holds only capital letters, digits,
    spaces and the signs [. , & -], and neither starts nor ends with
    whitespace. *)
Theorem name_fields_shape (text0 : text) (k : string) (v : text) :
  k ∈ ["namaPenjual"; "namaPembeli"] →
  parse_pdf_fields text0 !! k = Some (Some v) →
  Forall (λ c, cls_nama c = true) v
  ∧ ∀ c, head v = Some c ∨ last v = Some c → Py.is_space c = false.
Proof.
  intros Hk.
  repeat (apply elem_of_cons in Hk as [->|Hk]); [| |by apply elem_of_nil in Hk].
  - rewrite parse_pdf_fields_party by elem_of_literals. simpl.
    unfold nama_penjual. intros [= Hv].
    destruct (negb _); [by eapply extract_nama_shape|].
    by eapply extract_nama_shape, extract_in_Some.
  - rewrite parse_pdf_fields_party by elem_of_literals. simpl.
    unfold nama_pembeli. intros [= Hv].
    destruct (negb _); [|by eapply extract_nama_shape, extract_in_Some].
    case_bool_decide; [|done].
    destruct (re_finditer RE_NAMA _ !! 1%nat) as [m|] eqn:Hm; [|done].
    injection Hv as <-. split; [|apply strip_ends].
    apply list_elem_of_lookup_2 in Hm.
    pose proof (finditer_group _ _ _ 1%nat _ Hm eq_refl eq_refl) as Hg.
    apply lang_rep in Hg as (Hg & _). by apply strip_Forall.
Qed.

Lemma name_fields_shape_witness :
  parse_pdf_fields (str "Nama :  PT ABC & CO. ") !! "namaPenjual"
  = Some (Some (str "PT ABC & CO."))
  ∧ Forall (λ c, cls_nama c = true) (str "PT ABC & CO.").
Proof.
  assert (H : parse_pdf_fields (str "Nama :  PT ABC & CO. ") !! "namaPenjual"
              = Some (Some (str "PT ABC & CO."))) by (by vm_compute).
  split; [done|].
  by destruct (name_fields_shape _ "namaPenjual" _ ltac:(elem_of_literals) H).
Defined.

(** *** Dates *)

Lemma lang_slash p : lang (lit true "/") p → p = str "/".
Proof.
  intros (p1 & p2 & -> & (c & -> & Hc) & ->). simpl in *.
  apply N.eqb_eq in Hc. unfold Py.lower_chr in Hc.
  destruct (Py.is_upper c) eqn:Hu; simpl in Hc.
  - unfold Py.is_upper in Hu. apply andb_true_iff in Hu as [Hu _].
    apply N.leb_le in Hu. vm_compute in Hc. exfalso.
    change (c + 32 = 47) in Hc. lia.
  - vm_compute in Hc. by subst c.
Qed.

Lemma indo_months_values k v :
  indo_months !! k = Some v → digits v ∧ length v = 2%nat.
Proof.
  unfold indo_months. intros H%elem_of_list_to_map_2.
  repeat (apply elem_of_cons in H as [[= -> ->]|H];
          [split; [elem_of_literals|done]|]).
  by apply elem_of_nil in H.
Qed.

Lemma digit_not_sign c :
  Py.is_digit c = true → (c =? chr "+") || (c =? chr "-") = false.
Proof.
  unfold Py.is_digit. intros [Hc _]%andb_true_iff. apply N.leb_le in Hc.
  apply orb_false_iff. split; apply N.eqb_neq; intros ->; by vm_compute in Hc.
Qed.

Lemma zfill_day day :
  digits day → (1 ≤ length day ≤ 2)%nat →
  digits (Py.zfill 2 day) ∧ length (Py.zfill 2 day) = 2%nat.
Proof.
  intros Hd Hlen. destruct day as [|c [|c' [|]]]; simpl in Hlen; try lia.
  - pose proof Hd as [Hc _]%Forall_cons.
    cbv beta zeta iota delta [Py.zfill]. rewrite (digit_not_sign c Hc). simpl.
    split; [|done]. constructor; [by vm_compute|done].
  - pose proof Hd as [Hc _]%Forall_cons.
    cbv beta zeta iota delta [Py.zfill]. rewrite (digit_not_sign c Hc). simpl.
    by split.
Qed.

Lemma tanggal_fallback_shape txt v :
  tanggal_fallback txt = Some v → is_date v ∧ length v = 10%nat.
Proof.
  unfold tanggal_fallback.
  destruct (re_search RE_TANGGAL_FALLBACK txt) as [m|] eqn:Hm; [|done].
  destruct (indo_months !! _) as [month|] eqn:Hmonth; [|done].
  destruct (nonempty month); [|done]. intros [= <-].
  pose proof (search_group _ _ _ 1%nat _ Hm eq_refl eq_refl) as (Hd & Hd1 & Hd2).
  pose proof (search_group _ _ _ 3%nat _ Hm eq_refl eq_refl) as (Hy & Hy1 & Hy2).
  simpl in Hd2, Hy2.
  destruct (zfill_day _ Hd (conj Hd1 Hd2)) as [Hz Hzlen].
  destruct (indo_months_values _ _ Hmonth) as [Hmo Hmolen].
  split.
  - eexists _, _, _. split; [reflexivity|].
    split_and!; try done; lia.
  - rewrite length_app, Hzlen. cbn [length]. rewrite length_app. cbn [length].
    rewrite Hmolen. lia.
Qed.

(** X11. An invoice date that has a value reads [d/m/y]: one or two digits,
    a slash, one or two digits, a slash, four digits. When it comes from
    the fallback pattern it has exactly ten characters, day and month on
    two digits. *)
Theorem tanggal_faktur_shape (text0 : text) (v : text) :
  parse_pdf_fields text0 !! "tanggalFaktur" = Some (Some v) →
  is_date v
  ∧ (re_search RE_TANGGAL_FAKTUR (preprocess_ocr_text text0) = None →
     length v = 10%nat).
Proof.
  rewrite parse_pdf_fields_tanggal. cbv zeta.
  destruct (re_search RE_TANGGAL_FAKTUR _) as [m|] eqn:Hm.
  - intros [= <-]. split; [|done].
    pose proof (search_group _ _ _ 1%nat _ Hm eq_refl eq_refl) as Hg.
    apply lang_seq_cons in Hg as (d & g1 & -> & (Hd & Hd1 & Hd2) & Hg).
    apply lang_seq_cons in Hg as (s1 & g2 & -> & ->%lang_slash & Hg).
    apply lang_seq_cons in Hg as (mo & g3 & -> & (Hmo & Hmo1 & Hmo2) & Hg).
    apply lang_seq_cons in Hg as (s2 & g4 & -> & ->%lang_slash & Hg).
    apply lang_seq_cons in Hg as (y & g5 & -> & (Hy & Hy1 & Hy2) & ->).
    simpl in Hd2, Hmo2, Hy2. rewrite app_nil_r.
    rewrite strip_id.
    + exists d, mo, y. split_and!; try done; lia.
    + intros c [Hc|Hc]; apply is_digit_not_space.
      * destruct d as [|c' d]; [simpl in Hd1; lia|].
        simpl in Hc. injection Hc as <-. by apply Forall_cons in Hd as [? _].
      * destruct y as [|c' y _] using rev_ind; [simpl in Hy1; lia|].
        rewrite !app_assoc, last_snoc in Hc. injection Hc as <-.
        by apply Forall_app in Hy as [_ [? _]%Forall_cons].
  - intros [= Hv]. destruct (tanggal_fallback_shape _ _ Hv). by split.
Qed.

Lemma tanggal_faktur_shape_witness :
  parse_pdf_fields (str "Batam, 7 Mei 2022") !! "tanggalFaktur"
  = Some (Some (str "07/05/2022"))
  ∧ is_date (str "07/05/2022") ∧ length (str "07/05/2022") = 10%nat.
Proof.
  assert (H : parse_pdf_fields (str "Batam, 7 Mei 2022") !! "tanggalFaktur"
              = Some (Some (str "07/05/2022"))) by (by vm_compute).
  split; [done|].
  destruct (tanggal_faktur_shape _ _ H) as [H1 H2].
  split; [exact H1|]. apply H2. by vm_compute.
Defined.

(** *** Sections *)

Lemma lang_lit_chrs ic (l p : text) :
  lang (seq (lit_chr ic <$> l)) p →
  if ic then Py.lower p = Py.lower l else p = l.
Proof.
  revert p. induction l as [|a l IH]; intros p.
  - intros ->. by destruct ic.
  - intros (p1 & p2 & -> & (c & -> & Hc) & Hp2%IH). simpl in Hc.
    destruct ic; apply N.eqb_eq in Hc; simpl.
    + unfold Py.lower in *. csimpl. by rewrite Hc, Hp2.
    + by rewrite Hc, Hp2.
Qed.

Lemma lang_lit ic s p :
  lang (lit ic s) p → if ic then Py.lower p = Py.lower (str s) else p = str s.
Proof. apply lang_lit_chrs. Qed.

(** X12. Section splitting cuts the text without copying or reordering:
    the buyer section is a suffix of the text and, when not empty, begins
    with the buyer marker in some letter case; the seller section is a
    stretch of the text, it stops where the buyer section starts, and it is
    empty when the buyer marker comes before the seller marker. *)
Theorem sections_of_text (txt : text) :
  pembeli_section txt `suffix_of` txt
  ∧ (pembeli_section txt ≠ [] →
     str "pembeli barang kena pajak" `prefix_of` Py.lower (pembeli_section txt))
  ∧ (∃ before after, txt = before ++ penjual_section txt ++ after
       ∧ (pembeli_section txt ≠ [] → penjual_section txt ≠ [] →
          after = pembeli_section txt))
  ∧ (∀ ps bs, re_search RE_PENJUAL txt = Some ps →
              re_search RE_PEMBELI txt = Some bs →
              (m_start bs < m_start ps)%nat → penjual_section txt = []).
Proof.
  unfold pembeli_section, penjual_section, sections, Py.slice, Py.slice_from.
  destruct (re_search RE_PEMBELI txt) as [bs|] eqn:Hbs;
    destruct (re_search RE_PENJUAL txt) as [ps|] eqn:Hps; simpl.
  - split_and!.
    + apply suffix_drop.
    + intros _. apply search_at_lang in Hbs
        as (q & p & s' & -> & Hp%lang_lit & Hs & _ & _). simpl in Hs.
      rewrite Hs, drop_app_length, lower_app, Hp.
      by apply prefix_app_r.
    + exists (take (m_start ps) txt),
        (drop (m_start bs - m_start ps) (drop (m_start ps) txt)).
      split; [by rewrite !take_drop|].
      intros _ Hne. rewrite drop_drop. f_equal.
      destruct (decide (m_start ps ≤ m_start bs)%nat); [lia|].
      exfalso. apply Hne.
      by replace (m_start bs - m_start ps)%nat with 0%nat by lia.
    + intros ps' bs' [= <-] [= <-] Hlt.
      by replace (m_start bs - m_start ps)%nat with 0%nat by lia.
  - split_and!.
    + apply suffix_drop.
    + intros _. apply search_at_lang in Hbs
        as (q & p & s' & -> & Hp%lang_lit & Hs & _ & _). simpl in Hs.
      rewrite Hs, drop_app_length, lower_app, Hp.
      by apply prefix_app_r.
    + exists [], txt. split; [done|]. by intros _ [].
    + by intros ps' bs' [=].
  - split_and!.
    + apply suffix_nil.
    + by intros [].
    + exists (take (m_start ps) txt), []. split; [|by intros []].
      by rewrite app_nil_r, take_drop.
    + by intros ps' bs' _ [=].
  - split_and!.
    + apply suffix_nil.
    + by intros [].
    + exists [], txt. split; [done|]. by intros [].
    + by intros ps' bs' [=].
Qed.

Lemma sections_of_text_witness :
  penjual_section (str "Pembeli Barang Kena Pajak Pengusaha Kena Pajak") = []
  ∧ pembeli_section (str "Pembeli Barang Kena Pajak Pengusaha Kena Pajak")
    = str "Pembeli Barang Kena Pajak Pengusaha Kena Pajak".
Proof.
  split; [|by vm_compute].
  destruct (sections_of_text (str "Pembeli Barang Kena Pajak Pengusaha Kena Pajak"))
    as (_ & _ & _ & H).
  destruct (re_search RE_PENJUAL (str "Pembeli Barang Kena Pajak Pengusaha Kena Pajak"))
    as [ps|] eqn:Hps; [|by vm_compute in Hps].
  destruct (re_search RE_PEMBELI (str "Pembeli Barang Kena Pajak Pengusaha Kena Pajak"))
    as [bs|] eqn:Hbs; [|by vm_compute in Hbs].
  apply (H ps bs eq_refl eq_refl).
  vm_compute in Hps, Hbs. injection Hps as <-. injection Hbs as <-. simpl. lia.
Defined.

(** *** The buyer fallback as a second search *)

Lemma rep_match_ext {R} cls lo hi (k k' : text → option R) n s :
  (∀ s', k s' = k' s') → rep_match cls lo hi k n s = rep_match cls lo hi k' n s.
Proof.
  intros Hk. revert n. induction s as [|c s IH]; intros n; simpl;
    [by rewrite Hk|].
  by rewrite IH, Hk.
Qed.

Lemma rmatch_ext {R} r s caps (k k' : text → gmap nat text → option R) :
  (∀ s' c, k s' c = k' s' c) → rmatch r s caps k = rmatch r s caps k'.
Proof.
  revert s caps k k'.
  induction r as [|cls|cls lo hi|a IHa b IHb|a IHa b IHb|j a IHa];
    intros s caps k k' Hk; simpl.
  - apply Hk.
  - destruct s; [done|]. by rewrite Hk.
  - apply rep_match_ext. intros s'. apply Hk.
  - apply IHa. intros s' c. by apply IHb.
  - by rewrite (IHa _ _ k k'), (IHb _ _ k k').
  - apply IHa. intros s' c. apply Hk.
Qed.

Lemma rep_match_fmap {R R'} (f : R → R') cls lo hi (k : text → option R) n s :
  rep_match cls lo hi (λ s', f <$> k s') n s = f <$> rep_match cls lo hi k n s.
Proof.
  revert n. induction s as [|c s IH]; intros n; simpl.
  - by destruct (lo <=? n)%nat.
  - destruct (cls c && _); [|by destruct (lo <=? n)%nat].
    rewrite IH. destruct (rep_match cls lo hi k (S n) s); [done|].
    by destruct (lo <=? n)%nat.
Qed.

Lemma rmatch_fmap {R R'} (f : R → R') r s caps (k : text → gmap nat text → option R) :
  rmatch r s caps (λ s' c, f <$> k s' c) = f <$> rmatch r s caps k.
Proof.
  revert s caps k.
  induction r as [|cls|cls lo hi|a IHa b IHb|a IHa b IHb|j a IHa];
    intros s caps k; simpl.
  - done.
  - destruct s; [done|]. by destruct (cls n).
  - apply (rep_match_fmap f cls lo hi (λ s', k s' caps)).
  - rewrite <- IHa. apply rmatch_ext. intros s' c. apply IHb.
  - rewrite IHa, IHb. by destruct (rmatch a s caps k).
  - apply (IHa s caps (λ s' caps', k s' (<[j:=take (length s - length s') s]> caps'))).
Qed.

(** The groups of a match do not depend on the position it is counted
    from. *)
Lemma match_here_groups r pos pos' s :
  m_groups <$> match_here r pos s = m_groups <$> match_here r pos' s.
Proof.
  unfold match_here.
  rewrite <- !(rmatch_fmap m_groups r s ∅
                 (λ s' caps, Some (mkMatch _ _ caps))). done.
Qed.

Lemma search_at_groups r pos pos' s :
  m_groups <$> search_at r pos s = m_groups <$> search_at r pos' s.
Proof.
  revert pos pos'. induction s as [|c s IH]; intros pos pos'; simpl.
  - pose proof (match_here_groups r pos pos' []) as H.
    by destruct (match_here r pos []), (match_here r pos' []).
  - pose proof (match_here_groups r pos pos' (c :: s)) as H.
    destruct (match_here r pos (c :: s)), (match_here r pos' (c :: s));
      first [done | apply IH].
Qed.

Lemma second_search (h : gmap nat text → text) r s :
  (1 ≤ min_len r)%nat →
  (λ m, h (m_groups m)) <$> re_finditer r s !! 1%nat
  = m ← re_search r s;
    (λ m, h (m_groups m)) <$> re_search r (drop (m_end m) s).
Proof.
  intros Hlen. rewrite re_finditer_second by done.
  destruct (re_search r s) as [m|]; [|done]. simpl.
  unfold re_search.
  pose proof (search_at_groups r (m_end m) 0 (drop (m_end m) s)) as H.
  destruct (search_at r (m_end m) _), (search_at r 0 _); simpl in *;
    [injection H as H; by rewrite H|done..].
Qed.

(** X13. When the buyer section yields no tax-ID, [npwpPembeli] is what
    the tax-ID extraction finds in the text that follows the first
    NPWP-labelled match of the whole text; likewise [namaPembeli] and the
    first Nama-labelled match. *)
Theorem buyer_fallback_after_first_match (text0 : text) :
  let txt := preprocess_ocr_text text0 in
  let section := pembeli_section txt in
  ((section = [] ∨ extract_npwp section = None ∨ extract_npwp section = Some []) →
   parse_pdf_fields text0 !! "npwpPembeli"
   = Some (m ← re_search RE_NPWP txt; extract_npwp (drop (m_end m) txt)))
  ∧ ((section = [] ∨ extract_nama section = None ∨ extract_nama section = Some []) →
     parse_pdf_fields text0 !! "namaPembeli"
     = Some (m ← re_search RE_NAMA txt; extract_nama (drop (m_end m) txt))).
Proof.
  intros txt section. split; intros Hno.
  - rewrite parse_pdf_fields_party by elem_of_literals. simpl. f_equal.
    unfold npwp_pembeli. fold txt section.
    rewrite (extract_in_falsy _ _ Hno). simpl.
    assert (E : (λ m, Re.sub_chars is_non_digit [] (group m 1))
                  <$> re_finditer RE_NPWP txt !! 1%nat
                = m ← re_search RE_NPWP txt; extract_npwp (drop (m_end m) txt)).
    { unfold group. rewrite (second_search (λ g, Re.sub_chars is_non_digit [] (default [] (g !! 1%nat))))
        by (vm_compute; lia).
      destruct (re_search RE_NPWP txt) as [m|]; [|done]. simpl.
      unfold extract_npwp. by destruct (re_search RE_NPWP (drop (m_end m) txt)). }
    rewrite <- E. case_bool_decide as Hlen; [done|].
    by rewrite lookup_ge_None_2 by lia.
  - rewrite parse_pdf_fields_party by elem_of_literals. simpl. f_equal.
    unfold nama_pembeli. fold txt section.
    rewrite (extract_in_falsy _ _ Hno). simpl.
    assert (E : (λ m, Py.strip (group m 1)) <$> re_finditer RE_NAMA txt !! 1%nat
                = m ← re_search RE_NAMA txt; extract_nama (drop (m_end m) txt)).
    { unfold group. rewrite (second_search (λ g, Py.strip (default [] (g !! 1%nat))))
        by (vm_compute; lia).
      destruct (re_search RE_NAMA txt) as [m|]; [|done]. simpl.
      unfold extract_nama. by destruct (re_search RE_NAMA (drop (m_end m) txt)). }
    rewrite <- E. case_bool_decide as Hlen; [done|].
    by rewrite lookup_ge_None_2 by lia.
Qed.

Lemma buyer_fallback_after_first_match_witness :
  parse_pdf_fields scenario_a !! "npwpPembeli"
  = Some (m ← re_search RE_NPWP (preprocess_ocr_text scenario_a);
          extract_npwp (drop (m_end m) (preprocess_ocr_text scenario_a)))
  ∧ (m ← re_search RE_NPWP (preprocess_ocr_text scenario_a);
     extract_npwp (drop (m_end m) (preprocess_ocr_text scenario_a)))
    = Some (str "023456789217000").
Proof.
  split; [|by vm_compute].
  destruct (buyer_fallback_after_first_match scenario_a) as [H _].
  apply H. left. by vm_compute.
Defined.

(** ** Reference fetcher, further properties *)

Section fetch_loop.

Variable root : ET.Element.

Local Abbreviation body :=
  (λ (djp_data : Dict) '(pdf_field, xml_field),
     match ET.find root (str xml_field) with
     | Some element => <[pdf_field := ET.text_ element]> djp_data
     | None => <[pdf_field := None]> djp_data
     end).





End fetch_loop.


Lemma fetch_djp_data_of_mock qr_url :
  fetch_djp_data_of MOCK_DJP_XML qr_url = fetch_djp_data qr_url.
Proof. reflexivity. Qed.


(** ** File kinds, further properties *)

Lemma lower_upper_chr c : Py.lower_chr (Py.upper_chr c) = Py.lower_chr c.
Proof.
  unfold Py.upper_chr. destruct (Py.is_lower c) eqn:Hl; [|done].
  unfold Py.is_lower in Hl. apply andb_true_iff in Hl as [H1 H2].
  apply N.leb_le in H1, H2. unfold Py.lower_chr, Py.is_upper.
  rewrite (proj2 (N.leb_le 65 (c - 32))) by lia.
  rewrite (proj2 (N.leb_le (c - 32) 90)) by lia.
  rewrite (proj2 (N.leb_gt c 90)) by lia.
  rewrite andb_false_r. simpl. lia.
Qed.

Lemma lower_upper s : Py.lower (Py.upper s) = Py.lower s.
Proof.
  unfold Py.lower, Py.upper. rewrite <- list_fmap_compose.
  apply list_fmap_ext. intros _ c _. apply lower_upper_chr.
Qed.

Lemma suffix_last (p s : text) : p `suffix_of` s → p ≠ [] → last s = last p.
Proof.
  intros [k ->] Hp. destruct p as [|c p _] using rev_ind; [done|].
  by rewrite app_assoc, !last_snoc.
Qed.

(** X15. A filename is never both a PDF and an image, and the letter case
    of the name does not matter to either test. *)
Theorem file_kinds_exclusive (filename : text) :
  (is_pdf_file filename = true → is_image_file filename = false)
  ∧ is_pdf_file (Py.upper filename) = is_pdf_file filename
  ∧ is_image_file (Py.upper filename) = is_image_file filename.
Proof.
  split_and!.
  - unfold is_pdf_file, is_image_file. intros Hpdf%endswith_suffix.
    apply suffix_last in Hpdf; [|done].
    apply not_true_is_false. simpl.
    rewrite !orb_true_iff, !endswith_suffix.
    intros [H|[H|[H|H]]]; [| | |done];
      apply suffix_last in H; try done; rewrite H in Hpdf; by vm_compute in Hpdf.
  - unfold is_pdf_file. by rewrite lower_upper.
  - unfold is_image_file. by rewrite lower_upper.
Qed.

Lemma file_kinds_exclusive_witness :
  is_pdf_file (str "Faktur.PDF") = true ∧ is_image_file (str "Faktur.PDF") = false.
Proof.
  split; [by vm_compute|].
  destruct (file_kinds_exclusive (str "Faktur.PDF")) as [H _].
  apply H. by vm_compute.
Defined.

(** ** Validation orchestrator, further properties *)

Lemma compare_fields_nil_iff a b :
  compare_fields a b = [] ↔ ∀ f, f ∈ FIELDS → dict_get a f = dict_get b f.
Proof.
  split; [|apply compare_fields_agree].
  intros Hnil f Hf. apply deviation_rule_None.
  destruct (deviation_rule a b f) as [d|] eqn:Hd; [|done].
  assert (Hin : d ∈ compare_fields a b).
  { rewrite compare_fields_rule. apply list_elem_of_omap. eauto. }
  rewrite Hnil in Hin. by apply elem_of_nil in Hin.
Qed.

Lemma compare_fields_length a b : (length (compare_fields a b) ≤ 8)%nat.
Proof.
  pose proof (omap_rule_fields a b FIELDS) as H%sublist_length.
  by rewrite length_fmap, <- compare_fields_rule in H.
Qed.

Section orchestrator_more.

Variable pdf_plumber tesseract : list Byte.byte → option text.
Variable extract_qr_code_from_pdf extract_qr_code_from_image : list Byte.byte → option text.

Local Abbreviation validate :=
  (validate_efaktur pdf_plumber tesseract
     extract_qr_code_from_pdf extract_qr_code_from_image).

#[local] Opaque fetch_djp_data parse_pdf_fields compare_fields.

(** X16. A request fails only before field extraction, and always with
    status 400: on an unsupported file kind before any call, or right after
    the text extraction when it fails or gives no text. With the mock
    record nothing fails later, so no request ends in a 500. *)
Theorem validate_efaktur_errors content filename log e :
  run (validate content filename) = (log, inl e) →
  status_code e = 400%nat
  ∧ (log, detail e) ∈
      [([], "Only PDF and JPG/PNG files are supported");
       ([ExtractTextFromPdf], "Failed to extract text from PDF");
       ([ExtractTextFromPdf], "No text found in PDF");
       ([ExtractTextFromImage], "Failed to extract text from image");
       ([ExtractTextFromImage], "No text found in image")].
Proof.
  cbv [run validate_efaktur bind call raise ret
       extract_text_from_pdf extract_text_from_image].
  destruct (is_pdf_file filename); [|destruct (is_image_file filename)].
  - destruct (pdf_plumber content) as [[|c txt]|]; simpl.
    + intros [= <- <-]. split; [done|]. simpl. right. right. by left.
    + destruct (fetch_djp_data_mock (extract_qr_code_from_pdf content))
        as (d & -> & _).
      destruct (nonempty _); intros [=].
    + intros [= <- <-]. split; [done|]. simpl. right. by left.
  - destruct (tesseract content) as [[|c txt]|]; simpl.
    + intros [= <- <-]. split; [done|]. simpl. do 4 right. by left.
    + destruct (fetch_djp_data_mock (extract_qr_code_from_image content))
        as (d & -> & _).
      destruct (nonempty _); intros [=].
    + intros [= <- <-]. split; [done|]. simpl. do 3 right. by left.
  - intros [= <- <-]. split; [done|]. simpl. by left.
Qed.

(** X17. What a returned result holds: the raw text is the text given by
    the extraction step, unchanged and not empty; the extracted fields are
    those of that text; the reference values are those of the mock record;
    the QR URL is the one found in the file; there are at most 8
    deviations and the message reports their number. *)
Theorem validate_efaktur_result content filename log r :
  run (validate content filename) = (log, inr r) →
  let res := validation_results r in
  Some (raw_ocr_text res) = extracted_text pdf_plumber tesseract content filename
  ∧ raw_ocr_text res ≠ []
  ∧ extracted_data res = parse_pdf_fields (raw_ocr_text res)
  ∧ (∀ f, f ∈ FIELDS → dict_get (validated_data res) f = dict_get mock_record f)
  ∧ qr_url res = (if is_pdf_file filename then extract_qr_code_from_pdf content
                  else extract_qr_code_from_image content)
  ∧ (length (deviations res) ≤ 8)%nat
  ∧ message r =
      (if nonempty (deviations res)
       then "Found " +:+ pretty (length (deviations res))
            +:+ " deviation(s) in e-Faktur data"
       else "E-Faktur data matches DJP records").
Proof.
  intros Hrun.
  destruct (validate_efaktur_returns _ _ _ _ _ _ _ _ Hrun)
    as (txt & url & djp & Hne & Hkind & Hdjp & _ & _).
  assert (Hr : r = assemble (parse_pdf_fields txt) djp txt url
               ∧ Some txt = extracted_text pdf_plumber tesseract content filename
               ∧ url = (if is_pdf_file filename then extract_qr_code_from_pdf content
                        else extract_qr_code_from_image content)).
  { unfold extracted_text.
    destruct Hkind as [(Hpdf & Htxt & -> & _)|(Hpdf & Himg & Htxt & -> & _)].
    - rewrite (validate_efaktur_pdf _ _ _ _ _ _ _ _ Hpdf Htxt Hne Hdjp) in Hrun.
      injection Hrun as _ <-. rewrite Hpdf, Htxt. split_and!; reflexivity.
    - rewrite (validate_efaktur_image _ _ _ _ _ _ _ _ Hpdf Himg Htxt Hne Hdjp) in Hrun.
      injection Hrun as _ <-. rewrite Hpdf, Himg, Htxt. split_and!; reflexivity. }
  destruct Hr as (-> & Htxt & Hurl). simpl.
  split; [exact Htxt|]. split; [exact Hne|]. split; [reflexivity|].
  split; [|split; [exact Hurl|split; [apply compare_fields_length|reflexivity]]].
  intros f Hf. destruct (fetch_djp_data_mock url) as (d & Hd & Hmock).
  rewrite Hd in Hdjp. injection Hdjp as <-. clear Hd. by apply Hmock.
Qed.

(** X18. A request is validated successfully exactly when the eight
    fields extracted from its raw text are those of the mock record. *)
Theorem validate_efaktur_success_iff content filename log r :
  run (validate content filename) = (log, inr r) →
  status r = "validated_successfully"
  ↔ ∀ f, f ∈ FIELDS →
         dict_get (parse_pdf_fields (raw_ocr_text (validation_results r))) f
         = dict_get mock_record f.
Proof.
  intros (txt & url & djp & _ & _ & Hdjp & -> & ->)%validate_efaktur_returns.
  simpl. destruct (fetch_djp_data_mock url) as (d & Hd & Hmock).
  rewrite Hd in Hdjp. injection Hdjp as <-. clear Hd.
  assert (Hiff : (if nonempty (compare_fields (parse_pdf_fields txt) d)
                  then "validated_with_deviations" else "validated_successfully")
                 = "validated_successfully"
                 ↔ compare_fields (parse_pdf_fields txt) d = []).
  { by destruct (compare_fields (parse_pdf_fields txt) d). }
  rewrite Hiff, compare_fields_nil_iff.
  split; intros H f Hf; [rewrite <- Hmock by done|rewrite Hmock by done]; auto.
Qed.

(** X20. The HTTP handler adds nothing to the validator on a file that
    could be read: both give the same outcome and make the same calls. An
    unsupported file kind is refused without reading the file, and a read
    failure on a supported kind is the only source of a 500. *)
Theorem App_validate_efaktur filename :
  (∀ content,
     run (App.validate_efaktur pdf_plumber tesseract
            extract_qr_code_from_pdf extract_qr_code_from_image
            (Some content) filename)
     = run (validate content filename))
  ∧ (is_pdf_file filename || is_image_file filename = false →
     ∀ upload,
       run (App.validate_efaktur pdf_plumber tesseract
              extract_qr_code_from_pdf extract_qr_code_from_image upload filename)
       = ([], inl (mkHTTPException 400 "Only PDF and JPG/PNG files are supported")))
  ∧ (is_pdf_file filename || is_image_file filename = true →
     run (App.validate_efaktur pdf_plumber tesseract
            extract_qr_code_from_pdf extract_qr_code_from_image None filename)
     = ([], inl (mkHTTPException 500 "Failed to process uploaded file"))).
Proof.
  unfold App.validate_efaktur. split_and!.
  - intros content.
    destruct (is_pdf_file filename) eqn:Hpdf; [reflexivity|].
    destruct (is_image_file filename) eqn:Himg; [reflexivity|]. simpl.
    cbv [run validate_efaktur bind call raise ret]. by rewrite Hpdf, Himg.
  - by intros ->.
  - by intros ->.
Qed.

End orchestrator_more.

#[local] Opaque fetch_djp_data parse_pdf_fields compare_fields.

(** X19. The QR code plays no part in the validation: with other QR
    extractors a request makes the same calls and gives the same outcome,
    the recorded URL aside. *)
Theorem validate_efaktur_ignores_qr
    (pdf_plumber tesseract qr_pdf qr_image qr_pdf' qr_image'
       : list Byte.byte → option text) content filename :
  prod_map id (sum_map id without_qr)
    (run (validate_efaktur pdf_plumber tesseract qr_pdf qr_image content filename))
  = prod_map id (sum_map id without_qr)
      (run (validate_efaktur pdf_plumber tesseract qr_pdf' qr_image' content filename)).
Proof.
  cbv [run validate_efaktur bind call raise ret
       extract_text_from_pdf extract_text_from_image].
  destruct (is_pdf_file filename); [|destruct (is_image_file filename)].
  - destruct (pdf_plumber content) as [[|c txt]|];
      cbn [nonempty negb]; [reflexivity| |reflexivity].
    change (fetch_djp_data (qr_pdf content)) with (fetch_djp_data None).
    change (fetch_djp_data (qr_pdf' content)) with (fetch_djp_data None).
    destruct (fetch_djp_data None); [reflexivity|].
    destruct (nonempty _); reflexivity.
  - destruct (tesseract content) as [[|c txt]|];
      cbn [nonempty negb]; [reflexivity| |reflexivity].
    change (fetch_djp_data (qr_image content)) with (fetch_djp_data None).
    change (fetch_djp_data (qr_image' content)) with (fetch_djp_data None).
    destruct (fetch_djp_data None); [reflexivity|].
    destruct (nonempty _); reflexivity.
  - reflexivity.
Qed.

Lemma validate_efaktur_errors_witness :
  status_code (mkHTTPException 400 "No text found in PDF") = 400%nat
  ∧ ([ExtractTextFromPdf], "No text found in PDF") ∈
      [([], "Only PDF and JPG/PNG files are supported");
       ([ExtractTextFromPdf], "Failed to extract text from PDF");
       ([ExtractTextFromPdf], "No text found in PDF");
       ([ExtractTextFromImage], "Failed to extract text from image");
       ([ExtractTextFromImage], "No text found in image")].
Proof.
  exact (validate_efaktur_errors (reads []) (reads []) no_qr no_qr [] (str "faktur.pdf")
           [ExtractTextFromPdf] (mkHTTPException 400 "No text found in PDF") eq_refl).
Defined.

Lemma validate_efaktur_result_witness :
  ∃ log r,
    run (validate_efaktur (reads matching_invoice) (reads []) no_qr no_qr
           [] (str "faktur.pdf")) = (log, inr r)
    ∧ Some (raw_ocr_text (validation_results r)) = Some matching_invoice
    ∧ qr_url (validation_results r) = None
    ∧ (length (deviations (validation_results r)) ≤ 8)%nat.
Proof.
  destruct (fetch_djp_data_mock None) as (d & Hd & _).
  assert (Hrun := validate_efaktur_pdf (reads matching_invoice) (reads []) no_qr no_qr
                    [] (str "faktur.pdf") matching_invoice d
                    eq_refl eq_refl ltac:(discriminate) Hd).
  clear Hd. do 2 eexists. split; [exact Hrun|].
  destruct (validate_efaktur_result _ _ _ _ _ _ _ _ Hrun)
    as (H1 & _ & _ & _ & H5 & H6 & _).
  split; [exact H1|]. split; [exact H5|exact H6].
Defined.

Lemma validate_efaktur_success_iff_witness :
  ∃ log r,
    run (validate_efaktur (reads matching_invoice) (reads []) no_qr no_qr
           [] (str "faktur.pdf")) = (log, inr r)
    ∧ status r = "validated_successfully".
Proof.
  destruct (fetch_djp_data_mock None) as (d & Hd & _).
  assert (Hrun := validate_efaktur_pdf (reads matching_invoice) (reads []) no_qr no_qr
                    [] (str "faktur.pdf") matching_invoice d
                    eq_refl eq_refl ltac:(discriminate) Hd).
  clear Hd. do 2 eexists. split; [exact Hrun|].
  apply (validate_efaktur_success_iff _ _ _ _ _ _ _ _ Hrun).
  intros f Hf.
  change (dict_get (parse_pdf_fields matching_invoice) f = dict_get mock_record f).
  unfold FIELDS in Hf.
  repeat (apply elem_of_cons in Hf as [->|Hf]; [by vm_compute|]).
  by apply elem_of_nil in Hf.
Defined.

Lemma App_validate_efaktur_witness :
  run (App.validate_efaktur (reads matching_invoice) (reads []) no_qr no_qr
         None (str "notes.txt"))
  = ([], inl (mkHTTPException 400 "Only PDF and JPG/PNG files are supported"))
  ∧ run (App.validate_efaktur (reads matching_invoice) (reads []) no_qr no_qr
           None (str "scan.jpeg"))
    = ([], inl (mkHTTPException 500 "Failed to process uploaded file")).
Proof.
  split.
  - destruct (App_validate_efaktur (reads matching_invoice) (reads []) no_qr no_qr
                (str "notes.txt")) as (_ & H & _).
    apply H. by vm_compute.
  - destruct (App_validate_efaktur (reads matching_invoice) (reads []) no_qr no_qr
                (str "scan.jpeg")) as (_ & _ & H).
    apply H. by vm_compute.
Defined.

